(** * palettecraft: the colour helpers of [palettecraft/core.py]

    A shallow embedding of [rgb_to_hex], [hex_to_rgb], [extract_palette] and
    [complementary_color], followed by the properties proved about them.

    Conventions.
    - A Python [int] is a [Z]; a Python [str] is a [string] (code points
      below 256).
    - A raised exception is the [Raise] case of [result].
    - In [extract_palette] a NumPy [float64] is an IEEE binary64 [float]:
      the centres are truncated and the luminance keys are compared as the
      machine does it.
    - The arithmetic of [colorsys] and [complementary_color] is carried out
      on exact rationals ([Q]): the properties of the hue rotation are
      proved there, without the rounding of each operation.  The same
      functions on binary64 ([colorsys64], [complementary_color64]) are
      evaluated on concrete colours and agree with the rational ones on
      every colour tried. *)

From Stdlib Require Import NArith ZArith QArith Qround List String Ascii Bool Lia Lqa.
From Stdlib Require Import Floats Uint63 Sorted Permutation.
Import ListNotations.

Set Warnings "-inexact-float".

(** ** Exceptions *)

Inductive exn : Type :=
| ValueError
| ZeroDivisionError
| OverflowError.

Inductive result (A : Type) : Type :=
| Ok (a : A)
| Raise (e : exn).

Arguments Ok {A} a.
Arguments Raise {A} e.

Definition bind {A B : Type} (m : result A) (k : A -> result B) : result B :=
  match m with
  | Ok a => k a
  | Raise e => Raise e
  end.

Notation "x <- m ;; k" := (bind m (fun x => k))
  (at level 61, m at next level, right associativity).


(** ** Hexadecimal colour strings *)

Definition color : Type := (Z * Z * Z)%type.

Section Hex.
Local Open Scope string_scope.
Local Open Scope Z_scope.

(** The lowercase digit of [0 <= n < 16]. *)
Definition hex_digit (n : Z) : ascii :=
  if n <? 10 then ascii_of_N (Z.to_N (48 + n)) else ascii_of_N (Z.to_N (87 + n)).

(** [format(n, "x")] for [n >= 0]; the fuel bounds the number of digits. *)
Fixpoint hex_str (fuel : nat) (n : Z) : string :=
  match fuel with
  | O => ""
  | S fuel' =>
      if n <? 16 then String (hex_digit n) ""
      else hex_str fuel' (n / 16) ++ String (hex_digit (n mod 16)) ""
  end.

Definition format_x (n : Z) : string := hex_str (S (Z.to_nat (Z.log2 n))) n.

(** Left padding with ["0"] up to [width] characters. *)
Fixpoint zeros (k : nat) : string :=
  match k with
  | O => ""
  | S k' => String "0" (zeros k')
  end.

Definition zfill (width : nat) (s : string) : string :=
  zeros (width - String.length s) ++ s.

(** [f"{c:02x}"]: sign-aware zero padding to two characters. *)
Definition format_02x (c : Z) : string :=
  if c <? 0 then String "-" (zfill 1 (format_x (- c))) else zfill 2 (format_x c).

(** [rgb_to_hex], core.py:39-52. *)
Definition rgb_to_hex (c : color) : string :=
  let '(r, g, b) := c in
  "#" ++ (format_02x r ++ format_02x g ++ format_02x b).

(** [str.lstrip(c)] for a one-character set: drops every leading [c]. *)
Fixpoint lstrip (c : ascii) (s : string) : string :=
  match s with
  | String a s' => if Ascii.eqb a c then lstrip c s' else s
  | EmptyString => EmptyString
  end.

(** *** [int(s, 16)]

    CPython's [PyLong_FromUnicodeObject] / [PyLong_FromString] at base 16:
    surrounding white space, one optional sign, an optional [0x] prefix,
    then digits in which single underscores may separate digits. *)

(** C's [isspace] in the "C" locale, as [Py_ISSPACE]. *)
Definition c_isspace (c : ascii) : bool :=
  let n := Z.of_N (N_of_ascii c) in
  ((9 <=? n) && (n <=? 13)) || (n =? 32).

Fixpoint map_string (f : ascii -> ascii) (s : string) : string :=
  match s with
  | String a s' => String (f a) (map_string f s')
  | EmptyString => EmptyString
  end.

(** [_PyUnicode_TransformDecimalAndSpaceToASCII] on code points below 256:
    a character below 127 is kept; of the others, the Unicode spaces (NEL
    133 and NBSP 160) become [" "] and the rest ["?"] (no decimal digit lies
    in 127..255). *)
Definition to_ascii_spaces (s : string) : string :=
  map_string (fun c =>
    let n := Z.of_N (N_of_ascii c) in
    if n <? 127 then c
    else if (n =? 133) || (n =? 160) then " "%char else "?"%char) s.

Fixpoint skip_spaces (s : string) : string :=
  match s with
  | String a s' => if c_isspace a then skip_spaces s' else s
  | EmptyString => EmptyString
  end.

(** The value of a base-16 digit, upper or lower case. *)
Definition digit_value (c : ascii) : option Z :=
  let n := Z.of_N (N_of_ascii c) in
  if (48 <=? n) && (n <=? 57) then Some (n - 48)
  else if (97 <=? n) && (n <=? 102) then Some (n - 87)
  else if (65 <=? n) && (n <=? 70) then Some (n - 55)
  else None.

Definition is_hex_digit (c : ascii) : bool :=
  match digit_value c with Some _ => true | None => false end.

(** The digit loop: [prev_us] tells that the previous character was an
    underscore, [acc] is the value read so far.  [None] is a syntax error
    (doubled or trailing underscore); otherwise the value and the unread
    suffix. *)
Fixpoint scan_digits (s : string) (prev_us : bool) (acc : Z) : option (Z * string) :=
  match s with
  | String c s' =>
      if Ascii.eqb c "_" then
        if prev_us then None else scan_digits s' true acc
      else
        match digit_value c with
        | Some d => scan_digits s' false (16 * acc + d)
        | None => if prev_us then None else Some (acc, s)
        end
  | EmptyString => if prev_us then None else Some (acc, EmptyString)
  end.

Definition strip_sign (s : string) : bool * string :=
  match s with
  | String "+" s' => (false, s')
  | String "-" s' => (true, s')
  | _ => (false, s)
  end.

Definition strip_prefix (s : string) : string :=
  match s with
  | String "0" (String x s') =>
      if Ascii.eqb x "x" || Ascii.eqb x "X" then
        match s' with
        | String "_" s'' => s''
        | _ => s'
        end
      else s
  | _ => s
  end.

Definition py_int16 (s : string) : result Z :=
  let (neg, s1) := strip_sign (skip_spaces (to_ascii_spaces s)) in
  let s2 := strip_prefix s1 in
  match s2 with
  | String "_" _ => Raise ValueError
  | _ =>
      match scan_digits s2 false 0 with
      | None => Raise ValueError
      | Some (v, rest) =>
          if (String.length rest =? String.length s2)%nat then Raise ValueError
          else
            match skip_spaces rest with
            | EmptyString => Ok (if neg then - v else v)
            | _ => Raise ValueError
            end
      end
  end.

(** [hex_to_rgb], core.py:55-71. *)
Definition hex_to_rgb (value : string) : result color :=
  let value := lstrip "#" value in
  if negb (String.length value =? 6)%nat then Raise ValueError
  else
    r <- py_int16 (substring 0 2 value) ;;
    g <- py_int16 (substring 2 2 value) ;;
    b <- py_int16 (substring 4 2 value) ;;
    Ok (r, g, b).

End Hex.

(** ** Binary64 helpers *)

Section Binary64.
Local Open Scope Z_scope.

(** Conversion of an integer to binary64, as NumPy and Python do before a
    mixed [float * int] product: correctly rounded, and exact below [2^53]
    in magnitude.  Meant for the [int64] range. *)
Definition float_of_Z (z : Z) : float :=
  match z with
  | Z0 => 0%float
  | Zpos _ => of_uint63 (Uint63.of_Z z)
  | Zneg _ => (- of_uint63 (Uint63.of_Z (- z)))%float
  end.

Definition int64_min : Z := - 2 ^ 63.

(** [ndarray.astype(int)] on one [float64] entry: the C conversion to
    [int64], which truncates toward zero.  A NaN, an infinity or a value
    outside the [int64] range has no defined result in C; x86-64 yields
    [INT64_MIN], which is what is returned here. *)
Definition astype_int (x : float) : Z :=
  match Prim2SF x with
  | S754_zero _ => 0
  | S754_finite s m e =>
      let t := Z.shiftl (Zpos m) e in
      let v := if s then - t else t in
      if (int64_min <=? v) && (v <? 2 ^ 63) then v else int64_min
  | _ => int64_min
  end.

(** The exact value of a finite binary64 number. *)
Definition SF_value (x : spec_float) : option Q :=
  match x with
  | S754_zero _ => Some 0%Q
  | S754_finite s m e =>
      let q := match e with
               | Z0 => inject_Z (Zpos m)
               | Zpos p => inject_Z (Zpos m * 2 ^ Zpos p)
               | Zneg p => Zpos m # (2 ^ p)%positive
               end in
      Some (if s then (- q)%Q else q)
  | _ => None
  end.

Definition float_value (x : float) : option Q := SF_value (Prim2SF x).

End Binary64.

(** ** Palette extraction *)

(** [PaletteColor], core.py:28-36. *)
Record PaletteColor : Type := { rgb : color }.

Definition to_hex (self : PaletteColor) : string := rgb_to_hex (rgb self).

(** A cluster centre as [KMeans.cluster_centers_] holds it: one row of
    three [float64]. *)
Definition centroid : Type := (float * float * float)%type.

Definition centroid_astype_int (c : centroid) : color :=
  let '(x, y, z) := c in (astype_int x, astype_int y, astype_int z).

(** The local function [luminance] of [extract_palette], core.py:119-121. *)
Definition luminance (c : color) : float :=
  let '(r, g, b) := c in
  (0.2126 * float_of_Z r + 0.7152 * float_of_Z g + 0.0722 * float_of_Z b)%float.

(** [sorted(l, key=key)].  Python's sort is stable and compares keys with
    [<] only; on keys that [<] orders totally every stable sort returns the
    same list, here by stable insertion. *)
Section Sorted.
Context {A : Type} (key : A -> float).

Fixpoint insert (x : A) (l : list A) : list A :=
  match l with
  | [] => [x]
  | y :: l' => if (key y <? key x)%float then y :: insert x l' else x :: y :: l'
  end.

Definition sorted (l : list A) : list A := fold_right insert [] l.

End Sorted.

(** [extract_palette] from [pixels] on (core.py:112-124).  The image is
    loaded and resized by Pillow; the function is modelled from the point
    where [pixels], the N x 3 array of [uint8] samples, exists.

    scikit-learn's [KMeans] is a parameter: [KMeans_fit n_clusters
    random_state X g] is [KMeans(n_clusters, random_state).fit(X)
    .cluster_centers_] run while NumPy's process-wide generator is in state
    [g]; it returns the centres, or raises, and the generator's new state. *)
Section ExtractPalette.
Context {rng : Type}.
Variable KMeans_fit :
  Z -> option Z -> list color -> rng -> result (list centroid) * rng.

Definition extract_palette (pixels : list color) (num_colors : Z) (g : rng)
  : result (list PaletteColor) * rng :=
  let (fitted, g') := KMeans_fit num_colors (Some 0%Z) pixels g in
  (centers <- fitted ;;
   let centers := map centroid_astype_int centers in
   let palette_sorted := sorted luminance centers in
   Ok (map Build_PaletteColor palette_sorted),
   g').

End ExtractPalette.

(** *** The clustering engine's contract

    What [extract_palette] relies on from [KMeans], as scikit-learn
    documents it and as section 4.2 of the specification states it. *)
Section EngineContract.
Context {rng : Type}.
Variable fit : Z -> option Z -> list color -> rng -> result (list centroid) * rng.
Local Open Scope Z_scope.

Definition valid_pixel (p : color) : Prop :=
  let '(r, g, b) := p in
  0 <= r <= 255 /\ 0 <= g <= 255 /\ 0 <= b <= 255.

Definition coord_in_range (x : float) : bool :=
  ((0 <=? x) && (x <=? 255))%float.

Definition centroid_in_range (c : centroid) : Prop :=
  let '(x, y, z) := c in
  coord_in_range x = true /\ coord_in_range y = true /\ coord_in_range z = true.

(** Modelled from the spec: the contract of the clustering engine
    (section 4.2), which is scikit-learn's and not part of the sources.  On
    [1 <= k <= number of samples] the engine returns exactly [k] centres,
    each coordinate within [[0, 255]], the range of the samples. *)
Definition engine_clusters : Prop :=
  forall k rs X g,
    1 <= k <= Z.of_nat (List.length X) -> Forall valid_pixel X ->
    exists centers,
      fst (fit k rs X g) = Ok centers /\
      Z.of_nat (List.length centers) = k /\
      Forall centroid_in_range centers.

(** Modelled from the spec: the failure conditions of the clustering
    engine (sections 4.2 and 7).  The engine rejects [k < 1], more clusters
    than samples, and an empty sample array; scikit-learn raises
    [ValueError] for each, which stands for both [InvalidArgument] and
    [EmptyInput]. *)
Definition engine_validates : Prop :=
  forall k rs X g,
    k < 1 \/ Z.of_nat (List.length X) < k \/ X = [] ->
    fst (fit k rs X g) = Raise ValueError.

(** Modelled from the spec: the reproducible initialisation of the
    clustering engine (section 4.2).  With an integer [random_state] the
    engine draws from a generator of its own, seeded with it: the centres do
    not depend on the state of the process-wide generator, which is left as
    it was. *)
Definition engine_seeded : Prop :=
  forall k s X g1 g2,
    fst (fit k (Some s) X g1) = fst (fit k (Some s) X g2) /\
    snd (fit k (Some s) X g1) = g1.

End EngineContract.

(** *** A small concrete engine

    [chunk_fit] satisfies the contract above and is used to run
    [extract_palette]: after the same validation it makes each of the first
    [k - 1] samples (counted from a start index) a cluster of its own and
    the remaining samples the last cluster, and returns the means, each
    coordinate kept within [[0, 255]] by [clip].  The start index is the
    seed, or the generator state when no seed is given.  For [k = 1] the
    centre is the mean of all samples, as for any k-means. *)
Section ChunkFit.

Definition fsum (l : list float) : float := fold_left PrimFloat.add l 0%float.

Definition fmean (l : list Z) : float :=
  (fsum (map float_of_Z l) / float_of_Z (Z.of_nat (List.length l)))%float.

Definition clip (x : float) : float := if coord_in_range x then x else 0%float.

Definition mean_centroid (X : list color) : centroid :=
  (clip (fmean (map (fun p => fst (fst p)) X)),
   clip (fmean (map (fun p => snd (fst p)) X)),
   clip (fmean (map snd X))).

Definition rotate {A : Type} (n : nat) (l : list A) : list A :=
  skipn (n mod List.length l) l ++ firstn (n mod List.length l) l.

Fixpoint chunks (k : nat) (X : list color) : list centroid :=
  match k, X with
  | O, _ => []
  | S O, _ => [mean_centroid X]
  | S k', p :: X' => mean_centroid [p] :: chunks k' X'
  | S _, [] => []
  end.

Definition chunk_fit (n_clusters : Z) (random_state : option Z)
    (X : list color) (g : nat) : result (list centroid) * nat :=
  if (n_clusters <? 1)%Z then (Raise ValueError, g)
  else if (Z.of_nat (List.length X) <? n_clusters)%Z then (Raise ValueError, g)
  else
    match random_state with
    | Some s => (Ok (chunks (Z.to_nat n_clusters) (rotate (Z.to_nat s) X)), g)
    | None => (Ok (chunks (Z.to_nat n_clusters) (rotate g X)), S g)
    end.

End ChunkFit.

(** ** Complementary colours *)

(** Python's [colorsys] (CPython 3.11, Lib/colorsys.py), on exact
    rationals: [+], [-], [*], [/] and the comparisons are those of [Q], with
    no rounding. *)
Module colorsys.
Local Open Scope Q_scope.

Definition ONE_THIRD : Q := 1 / 3.
Definition ONE_SIXTH : Q := 1 / 6.
Definition TWO_THIRD : Q := 2 / 3.

Definition Qltb (x y : Q) : bool := negb (Qle_bool y x).

(** [max(a, b, c)] keeps the first of the largest arguments, [min(a, b, c)]
    the first of the smallest. *)
Definition max2 (a b : Q) : Q := if Qltb a b then b else a.
Definition min2 (a b : Q) : Q := if Qltb b a then b else a.
Definition max3 (a b c : Q) : Q := max2 (max2 a b) c.
Definition min3 (a b c : Q) : Q := min2 (min2 a b) c.

(** [x % 1.0]: the remainder takes the sign of the divisor, so it lies in
    [[0, 1)]. *)
Definition fmod1 (x : Q) : Q := x - inject_Z (Qfloor x).

(** [x / y] on floats raises on a zero divisor. *)
Definition fdiv (x y : Q) : result Q :=
  if Qeq_bool y 0 then Raise ZeroDivisionError else Ok (x / y).

Definition rgb_to_hls (r g b : Q) : result (Q * Q * Q) :=
  let maxc := max3 r g b in
  let minc := min3 r g b in
  let sumc := maxc + minc in
  let rangec := maxc - minc in
  let l := sumc / 2 in
  if Qeq_bool minc maxc then Ok (0, l, 0)
  else
    s <- (if Qle_bool l (1 # 2) then fdiv rangec sumc
          else fdiv rangec (2 - sumc)) ;;
    rc <- fdiv (maxc - r) rangec ;;
    gc <- fdiv (maxc - g) rangec ;;
    bc <- fdiv (maxc - b) rangec ;;
    let h :=
      if Qeq_bool r maxc then bc - gc
      else if Qeq_bool g maxc then 2 + rc - bc
      else 4 + gc - rc in
    let h := fmod1 (h / 6) in
    Ok (h, l, s).

Definition _v (m1 m2 hue : Q) : Q :=
  let hue := fmod1 hue in
  if Qltb hue ONE_SIXTH then m1 + (m2 - m1) * hue * 6
  else if Qltb hue (1 # 2) then m2
  else if Qltb hue TWO_THIRD then m1 + (m2 - m1) * (TWO_THIRD - hue) * 6
  else m1.

Definition hls_to_rgb (h l s : Q) : Q * Q * Q :=
  if Qeq_bool s 0 then (l, l, l)
  else
    let m2 := if Qle_bool l (1 # 2) then l * (1 + s) else l + s - l * s in
    let m1 := 2 * l - m2 in
    (_v m1 m2 (h + ONE_THIRD), _v m1 m2 h, _v m1 m2 (h - ONE_THIRD)).

End colorsys.

Section Complement.
Local Open Scope Q_scope.

(** [round(x)] with one argument: the nearest integer, a tie going to the
    even neighbour. *)
Definition py_round (x : Q) : Z :=
  let f := Qfloor x in
  match Qcompare (x - inject_Z f) (1 # 2) with
  | Lt => f
  | Gt => (f + 1)%Z
  | Eq => if Z.even f then f else (f + 1)%Z
  end.

(** [complementary_color], core.py:127-150. *)
Definition complementary_color (c : color) : result color :=
  let '(r, g, b) := c in
  let r := inject_Z r / 255 in
  let g := inject_Z g / 255 in
  let b := inject_Z b / 255 in
  hls <- colorsys.rgb_to_hls r g b ;;
  let '(h, l, s) := hls in
  let h := colorsys.fmod1 (h + (1 # 2)) in
  let '(r2, g2, b2) := colorsys.hls_to_rgb h l s in
  Ok (py_round (r2 * 255), py_round (g2 * 255), py_round (b2 * 255)).

End Complement.

(** *** The same functions on binary64

    [colorsys64] and [complementary_color64] follow the same source lines
    with every operation rounded as IEEE 754 binary64 rounds it.  They are
    used to evaluate the code on concrete colours. *)
Module colorsys64.
Local Open Scope float_scope.

Definition ONE_THIRD : float := 1 / 3.
Definition ONE_SIXTH : float := 1 / 6.
Definition TWO_THIRD : float := 2 / 3.

Definition max2 (a b : float) : float := if a <? b then b else a.
Definition min2 (a b : float) : float := if b <? a then b else a.
Definition max3 (a b c : float) : float := max2 (max2 a b) c.
Definition min3 (a b c : float) : float := min2 (min2 a b) c.

(** [x % 1.0]: C's [fmod], which is exact, then the adjustment of
    [float_rem] to the sign of the divisor.  Below [2^52] in magnitude the
    remainder is [x] minus its integer part; from there on [x] is an
    integer. *)
Definition fmod1 (x : float) : float :=
  if is_nan x || is_infinity x then nan
  else
    let m := if abs x <? 4503599627370496 then x - float_of_Z (astype_int x)
             else 0 in
    if m =? 0 then 0 else if m <? 0 then m + 1 else m.

Definition fdiv (x y : float) : result float :=
  if y =? 0 then Raise ZeroDivisionError else Ok (x / y).

Definition rgb_to_hls (r g b : float) : result (float * float * float) :=
  let maxc := max3 r g b in
  let minc := min3 r g b in
  let sumc := maxc + minc in
  let rangec := maxc - minc in
  let l := sumc / 2 in
  if minc =? maxc then Ok (0, l, 0)
  else
    s <- (if l <=? 0.5 then fdiv rangec sumc
          else fdiv rangec (2 - sumc)) ;;
    rc <- fdiv (maxc - r) rangec ;;
    gc <- fdiv (maxc - g) rangec ;;
    bc <- fdiv (maxc - b) rangec ;;
    let h :=
      if r =? maxc then bc - gc
      else if g =? maxc then 2 + rc - bc
      else 4 + gc - rc in
    let h := fmod1 (h / 6) in
    Ok (h, l, s).

Definition _v (m1 m2 hue : float) : float :=
  let hue := fmod1 hue in
  if hue <? ONE_SIXTH then m1 + (m2 - m1) * hue * 6
  else if hue <? 0.5 then m2
  else if hue <? TWO_THIRD then m1 + (m2 - m1) * (TWO_THIRD - hue) * 6
  else m1.

Definition hls_to_rgb (h l s : float) : float * float * float :=
  if s =? 0 then (l, l, l)
  else
    let m2 := if l <=? 0.5 then l * (1 + s) else l + s - l * s in
    let m1 := 2 * l - m2 in
    (_v m1 m2 (h + ONE_THIRD), _v m1 m2 h, _v m1 m2 (h - ONE_THIRD)).

End colorsys64.

Section Complement64.
Local Open Scope float_scope.

(** [int(round(x))] on a float: the rounding of the exact value; a NaN
    raises [ValueError] and an infinity [OverflowError]. *)
Definition py_round64 (x : float) : result Z :=
  match float_value x with
  | Some q => Ok (py_round q)
  | None => if is_nan x then Raise ValueError else Raise OverflowError
  end.

Definition complementary_color64 (c : color) : result color :=
  let '(r, g, b) := c in
  let r := float_of_Z r / 255 in
  let g := float_of_Z g / 255 in
  let b := float_of_Z b / 255 in
  hls <- colorsys64.rgb_to_hls r g b ;;
  let '(h, l, s) := hls in
  let h := colorsys64.fmod1 (h + 0.5) in
  let '(r2, g2, b2) := colorsys64.hls_to_rgb h l s in
  r' <- py_round64 (r2 * 255) ;;
  g' <- py_round64 (g2 * 255) ;;
  b' <- py_round64 (b2 * 255) ;;
  Ok (r', g', b').

End Complement64.

(** * Vocabulary of the statements

    Predicates, tables and sample inputs that the properties below are
    stated with. *)

(** ** Finite ranges, for properties checked value by value *)

Section FiniteRanges.
Local Open Scope Z_scope.

Definition Zrange (n : nat) : list Z := map Z.of_nat (seq 0 n).

Definition all_ascii : list ascii := map (fun n => ascii_of_N (N.of_nat n)) (seq 0 256).

End FiniteRanges.

(** ** Hexadecimal strings *)

Section HexVocabulary.
Local Open Scope string_scope.
Local Open Scope Z_scope.

Definition result_eqb (x : result Z) (z : Z) : bool :=
  match x with Ok v => v =? z | Raise _ => false end.

(** What [format_02x] and [py_int16] do on one channel value. *)
Definition channel_check (c : Z) : bool :=
  let a := hex_digit (c / 16) in
  let b := hex_digit (c mod 16) in
  String.eqb (format_02x c) (String a (String b ""))
  && negb (Ascii.eqb a "#")
  && result_eqb (py_int16 (String a (String b ""))) c.

(** The sixteen lowercase digits. *)
Definition lower_hex : string := "0123456789abcdef".




(** The value of a hexadecimal character (0 for any other). *)
Definition hexval (c : ascii) : Z :=
  match digit_value c with Some d => d | None => 0 end.

(** The characters that can occur in a two-character group that
    [int(_, 16)] reads: hexadecimal digits, a sign, and white space. *)
Definition group_char (c : ascii) : bool :=
  is_hex_digit c || Ascii.eqb c "+" || Ascii.eqb c "-" || c_isspace c
  || (Z.of_N (N_of_ascii c) =? 133) || (Z.of_N (N_of_ascii c) =? 160).

Definition pair_check (a b : ascii) : bool :=
  match py_int16 (String a (String b "")) with
  | Ok v =>
      group_char a && group_char b &&
      (if is_hex_digit a && is_hex_digit b then v =? 16 * hexval a + hexval b
       else true)
  | Raise ValueError => negb (is_hex_digit a && is_hex_digit b)
  | Raise _ => false
  end.

End HexVocabulary.

(** ** The order of binary64 values *)

Section SpecFloatVocabulary.
Local Open Scope Z_scope.

(** [x <= y] on specification floats, as a proposition. *)
Definition SFle (x y : spec_float) : Prop :=
  match x, y with
  | S754_nan, _ | _, S754_nan => False
  | S754_infinity s1, S754_infinity s2 => s1 = true \/ s2 = false
  | S754_infinity s, _ => s = true
  | _, S754_infinity s => s = false
  | S754_finite s _ _, S754_zero _ => s = true
  | S754_zero _, S754_finite s _ _ => s = false
  | S754_zero _, S754_zero _ => True
  | S754_finite s1 m1 e1, S754_finite s2 m2 e2 =>
      match s1, s2 with
      | true, false => True
      | false, true => False
      | false, false => e1 < e2 \/ (e1 = e2 /\ Zpos m1 <= Zpos m2)
      | true, true => e2 < e1 \/ (e1 = e2 /\ Zpos m2 <= Zpos m1)
      end
  end.


End SpecFloatVocabulary.

Section Binary64Vocabulary.
Local Open Scope float_scope.


Definition fle (x y : float) : Prop := (x <=? y) = true.

End Binary64Vocabulary.

(** ** Sorted lists *)

Section SortedVocabulary.
Context {A : Type} (key : A -> float).
Local Open Scope float_scope.



End SortedVocabulary.

(** ** The luminance key on channels in [0,255] *)

Section LuminanceTables.
Local Open Scope float_scope.








End LuminanceTables.

(** ** Sample inputs of [extract_palette], and the conversion of centres in
    the words of the specification *)

Section PaletteVocabulary.
Local Open Scope Z_scope.

(** Four samples, two of which, [(31,3,9)] and [(0,0,130)], have the same
    luminance as real numbers but not as binary64 keys. *)
Definition four_pixels : list color :=
  [(255, 255, 255); (0, 0, 0); (31, 3, 9); (0, 0, 130)].




End PaletteVocabulary.

(** ** Hues and [hls_to_rgb] *)

Section ColorsysVocabulary.
Import colorsys.
Local Open Scope Q_scope.

(** [x] and [y] differ by an integer. *)
Definition cong1 (x y : Q) : Prop := exists k : Z, x == y + inject_Z k.

(** The value [m2] that [hls_to_rgb] computes from [l] and [s]. *)
Definition m2_of (l s : Q) : Q :=
  if Qle_bool l (1 # 2) then l * (1 + s) else l + s - l * s.

End ColorsysVocabulary.

(** ** Evaluation on binary64 *)

Section EvaluationVocabulary.
Local Open Scope Z_scope.

Definition mirror (c : color) : color :=
  let '(r, g, b) := c in
  (Z.max r (Z.max g b) + Z.min r (Z.min g b) - r,
   Z.max r (Z.max g b) + Z.min r (Z.min g b) - g,
   Z.max r (Z.max g b) + Z.min r (Z.min g b) - b).

Definition color_eqb (c d : color) : bool :=
  let '(r, g, b) := c in
  let '(r', g', b') := d in
  (r =? r') && (g =? g') && (b =? b').

Definition mirrors64 (c : color) : bool :=
  match complementary_color64 c with
  | Ok c' => color_eqb c' (mirror c)
  | Raise _ => false
  end.

(** The channel values 0, 15, 30, ..., 255. *)
Definition grid : list Z := Eval vm_compute in map (fun i => 15 * i) (Zrange 18).

End EvaluationVocabulary.

(** * The rest of [core.py] and its callers *)

(** ** The size computed before clustering

    [extract_palette], core.py:103-108: the new size passed to
    [img.resize] when [resize] is given and the image is larger. *)

Section Resize.
Local Open Scope Z_scope.

(** [int(x)] on a float: truncation toward zero; a NaN raises [ValueError]
    and an infinity [OverflowError]. *)
Definition py_int (x : float) : result Z :=
  match Prim2SF x with
  | S754_zero _ => Ok 0
  | S754_finite s m e =>
      let t := Z.shiftl (Zpos m) e in Ok (if s then - t else t)
  | S754_infinity _ => Raise OverflowError
  | S754_nan => Raise ValueError
  end.

(** [a / b] on two integers: the quotient rounded to binary64, which for
    integers below [2^53] in magnitude is the binary64 quotient of their
    conversions. *)
Definition int_truediv (a b : Z) : result float :=
  if b =? 0 then Raise ZeroDivisionError
  else Ok (float_of_Z a / float_of_Z b)%float.

(** The size of the image that is clustered: [size] itself, or the pair
    computed at core.py:106-107. *)
Definition resized_size (size : Z * Z) (resize : option Z) : result (Z * Z) :=
  match resize with
  | None => Ok size
  | Some resize =>
      let max_dim := Z.max (fst size) (snd size) in
      if resize <? max_dim then
        scale <- int_truediv resize max_dim ;;
        w <- py_int (float_of_Z (fst size) * scale)%float ;;
        h <- py_int (float_of_Z (snd size) * scale)%float ;;
        Ok (w, h)
      else Ok size
  end.

End Resize.

(** ** [generate_palette_image], core.py:153-222

    The image is a Pillow canvas; the function is modelled by the list of
    drawing calls it makes, in order.  [textsize] stands for
    [draw.textsize(text, font=font)].  The label coordinates are floats in
    the code, halves of integers: on them binary64 arithmetic is exact
    (below [2^51]), and they are rationals here. *)

Inductive draw_call : Type :=
| swatch_rectangle (x0 y0 x1 y1 : Z) (fill : color)
| label_rectangle (x0 y0 x1 y1 : Q) (fill : Z * Z * Z * Z)
| label_text (x y : Q) (text : string) (fill : color).

Section GeneratePaletteImage.
Variable textsize : string -> Z * Z.
Local Open Scope Z_scope.

(** [a // b] on integers. *)
Definition floordiv (a b : Z) : result Z :=
  if b =? 0 then Raise ZeroDivisionError else Ok (a / b).

(** The body of the loop for the swatch of index [i]. *)
Definition draw_swatch (swatch_width swatch_height border : Z)
    (show_labels : bool) (i : Z) (c : color) : list draw_call :=
  let x0 := border + i * (swatch_width + border) in
  let y0 := border in
  let x1 := x0 + swatch_width in
  let y1 := y0 + swatch_height in
  swatch_rectangle x0 y0 x1 y1 c ::
  (if show_labels then
     let text := rgb_to_hex c in
     let '(text_width, text_height) := textsize text in
     let tx := (inject_Z x0 + inject_Z (swatch_width - text_width) / 2)%Q in
     let ty := (inject_Z y0 + inject_Z (swatch_height - text_height) / 2)%Q in
     let bg_padding := 2%Q in
     [ label_rectangle (tx - bg_padding)%Q (ty - bg_padding)%Q
         (tx + inject_Z text_width + bg_padding)%Q
         (ty + inject_Z text_height + bg_padding)%Q (255, 255, 255, 200);
       label_text tx ty text (0, 0, 0) ]
   else []).

(** [enumerate]: the loop, with the index of the next swatch. *)
Fixpoint draw_swatches (swatch_width swatch_height border : Z)
    (show_labels : bool) (i : Z) (palette : list color) : list draw_call :=
  match palette with
  | [] => []
  | c :: palette' =>
      draw_swatch swatch_width swatch_height border show_labels i c ++
      draw_swatches swatch_width swatch_height border show_labels (i + 1) palette'
  end.

Definition generate_palette_image (palette : list color)
    (width height border : Z) (show_labels : bool) : result (list draw_call) :=
  let n := Z.of_nat (List.length palette) in
  swatch_width <- floordiv (width - (n + 1) * border) n ;;
  let swatch_height := height - 2 * border in
  Ok (draw_swatches swatch_width swatch_height border show_labels 0 palette).

End GeneratePaletteImage.

(** ** The command line, cli.py:37-91

    What [main] computes from the palette: the complementary colours, the
    colours of the preview image and the data written as JSON. *)

Section CommandLine.


(** cli.py:38: [--resize 0] disables the resizing. *)
Definition resize_param (resize : Z) : option Z :=
  if (resize =? 0)%Z then None else Some resize.






End CommandLine.

(** ** Vocabulary of the further statements *)

Section HexVocabulary2.
Local Open Scope string_scope.
Local Open Scope Z_scope.

(** A channel value is written on two characters that do not start with
    ["#"] and that [int(_, 16)] reads back. *)
Definition two_chars_check (c : Z) : bool :=
  match format_02x c with
  | String a (String b "") =>
      negb (Ascii.eqb a "#") && result_eqb (py_int16 (String a (String b ""))) c
  | _ => false
  end.

(** [str.lower] on one character of code point below 128. *)
Definition lower_ascii (c : ascii) : ascii :=
  let n := Z.of_N (N_of_ascii c) in
  if (65 <=? n) && (n <=? 90) then ascii_of_N (Z.to_N (n + 32)) else c.

(** Two hexadecimal characters are written back in lower case. *)
Definition pair_lower_check (a b : ascii) : bool :=
  if is_hex_digit a && is_hex_digit b then
    String.eqb (format_02x (16 * hexval a + hexval b))
               (String (lower_ascii a) (String (lower_ascii b) ""))
  else true.

(** What [int(_, 16)] returns on two characters lies in [-15, 255]. *)
Definition pair_range_check (a b : ascii) : bool :=
  match py_int16 (String a (String b "")) with
  | Ok v => (-15 <=? v) && (v <=? 255)
  | Raise _ => true
  end.

Definition first_not_hash (s : string) : Prop :=
  match s with
  | String a _ => Ascii.eqb a "#" = false
  | EmptyString => False
  end.

End HexVocabulary2.

Section DrawVocabulary.
Local Open Scope Z_scope.

(** The swatches of a list of drawing calls: box and colour, in order. *)
Definition swatches_of (calls : list draw_call) : list (Z * Z * Z * Z * color) :=
  flat_map (fun d => match d with
                     | swatch_rectangle x0 y0 x1 y1 fill => [(x0, y0, x1, y1, fill)]
                     | _ => []
                     end) calls.

(** The labels of a list of drawing calls: position and text, in order. *)
Definition labels_of (calls : list draw_call) : list (Q * Q * string) :=
  flat_map (fun d => match d with
                     | label_text x y text _ => [(x, y, text)]
                     | _ => []
                     end) calls.

(** The label backgrounds of a list of drawing calls, in order. *)
Definition label_boxes_of (calls : list draw_call) : list (Q * Q * Q * Q) :=
  flat_map (fun d => match d with
                     | label_rectangle x0 y0 x1 y1 _ => [(x0, y0, x1, y1)]
                     | _ => []
                     end) calls.

(** A text measure for a fixed-width font, 6 by 11 pixels a character. *)
Definition textsize_6x11 (text : string) : Z * Z :=
  (6 * Z.of_nat (String.length text), 11).

End DrawVocabulary.

Section HueVocabulary.
Import colorsys.
Local Open Scope Q_scope.



End HueVocabulary.

Section ResizeVocabulary.
Local Open Scope Z_scope.

(** The sides for which the default resizing is evaluated: up to 4096. *)
Definition max_side : nat := Z.to_nat 4096.

(** A product that [int] truncates to an integer of [[0, 500]]. *)
Definition side_ok (p : float) : bool := ((0 <=? p) && (p <=? 500.5))%float.

(** A product that [int] truncates to 499 or 500. *)
Definition largest_ok (p : float) : bool := ((499 <=? p) && (p <=? 500.5))%float.

(** The products of core.py:107 with [resize = 500], for a largest side
    [m] over 500 of binary64 value [fm] and the sides [sides]. *)
Definition row_ok (m : Z) (fm : float) (sides : list float) : bool :=
  if m <=? 500 then true
  else
    let scale := (float_of_Z 500 / fm)%float in
    largest_ok (fm * scale)%float &&
    forallb (fun d => side_ok (d * scale)%float) sides.

(** [row_ok] for every largest side of [todo], an increasing list, each
    with the sides seen so far. *)
Fixpoint rows_ok (seen : list float) (todo : list Z) : bool :=
  match todo with
  | [] => true
  | m :: todo' =>
      let fm := float_of_Z m in
      row_ok m fm (fm :: seen) && rows_ok (fm :: seen) todo'
  end.

End ResizeVocabulary.

(** * Properties *)

(** ** Checking a predicate on a finite range *)

Section FiniteChecks.
Local Open Scope Z_scope.

Lemma Zrange_In (n : nat) (z : Z) : 0 <= z < Z.of_nat n -> In z (Zrange n).
Proof.
  intros Hz. unfold Zrange. apply in_map_iff. exists (Z.to_nat z). split.
  - lia.
  - apply in_seq. lia.
Qed.

Lemma Zrange_forallb (P : Z -> bool) (n : nat) :
  forallb P (Zrange n) = true -> forall z, 0 <= z < Z.of_nat n -> P z = true.
Proof.
  intros H z Hz. rewrite forallb_forall in H. apply H, Zrange_In, Hz.
Qed.

Lemma all_ascii_In (a : ascii) : In a all_ascii.
Proof.
  unfold all_ascii. apply in_map_iff. exists (N.to_nat (N_of_ascii a)). split.
  - rewrite N2Nat.id. apply ascii_N_embedding.
  - apply in_seq. pose proof (N_ascii_bounded a). lia.
Qed.

Lemma all_ascii_forallb (P : ascii -> bool) :
  forallb P all_ascii = true -> forall a, P a = true.
Proof.
  intros H a. rewrite forallb_forall in H. apply H, all_ascii_In.
Qed.

End FiniteChecks.

(** ** Hexadecimal strings *)

Section HexProperties.
Local Open Scope string_scope.
Local Open Scope Z_scope.

Lemma result_eqb_eq (x : result Z) (z : Z) : result_eqb x z = true -> x = Ok z.
Proof.
  destruct x as [v|e]; simpl; [|discriminate].
  intros H. apply Z.eqb_eq in H. now subst.
Qed.

Lemma channel_check_all : forallb channel_check (Zrange 256) = true.
Proof. vm_compute. reflexivity. Qed.

Lemma format_02x_channel (c : Z) :
  0 <= c <= 255 ->
  format_02x c = String (hex_digit (c / 16)) (String (hex_digit (c mod 16)) "").
Proof.
  intros Hc.
  pose proof (Zrange_forallb _ _ channel_check_all c ltac:(simpl; lia)) as H.
  unfold channel_check in H. cbv zeta in H.
  apply andb_prop in H. destruct H as [H _].
  apply andb_prop in H. destruct H as [H _].
  now apply String.eqb_eq in H.
Qed.

Lemma hex_digit_not_hash (c : Z) :
  0 <= c <= 255 -> Ascii.eqb (hex_digit (c / 16)) "#" = false.
Proof.
  intros Hc.
  pose proof (Zrange_forallb _ _ channel_check_all c ltac:(simpl; lia)) as H.
  unfold channel_check in H. cbv zeta in H.
  apply andb_prop in H. destruct H as [H _].
  apply andb_prop in H. destruct H as [_ H].
  now apply negb_true_iff in H.
Qed.

Lemma py_int16_channel (c : Z) :
  0 <= c <= 255 ->
  py_int16 (String (hex_digit (c / 16)) (String (hex_digit (c mod 16)) "")) = Ok c.
Proof.
  intros Hc.
  pose proof (Zrange_forallb _ _ channel_check_all c ltac:(simpl; lia)) as H.
  unfold channel_check in H. cbv zeta in H.
  apply andb_prop in H. destruct H as [_ H].
  now apply result_eqb_eq.
Qed.

Lemma hex_digit_lower (n : Z) :
  0 <= n < 16 -> String.get (Z.to_nat n) lower_hex = Some (hex_digit n).
Proof.
  intros Hn.
  assert (H : forallb (fun n => match String.get (Z.to_nat n) lower_hex with
                                | Some a => Ascii.eqb a (hex_digit n)
                                | None => false
                                end) (Zrange 16) = true) by (vm_compute; reflexivity).
  pose proof (Zrange_forallb _ _ H n ltac:(simpl; lia)) as Hn'. cbv beta in Hn'.
  destruct (String.get (Z.to_nat n) lower_hex) as [a|]; [|discriminate Hn'].
  apply Ascii.eqb_eq in Hn'. now subst.
Qed.

(** C5.  For channels in [0,255], [rgb_to_hex] is ["#"] followed by two
    lowercase hexadecimal digits per channel (high digit first, so a value
    below 16 is padded with ["0"]), and [hex_to_rgb] reads the triple
    back. *)
Theorem hex_round_trip (r g b : Z) :
  0 <= r <= 255 -> 0 <= g <= 255 -> 0 <= b <= 255 ->
  rgb_to_hex (r, g, b) =
    String "#"
      (String (hex_digit (r / 16)) (String (hex_digit (r mod 16))
      (String (hex_digit (g / 16)) (String (hex_digit (g mod 16))
      (String (hex_digit (b / 16)) (String (hex_digit (b mod 16)) ""))))))
  /\ (forall c, In c [r; g; b] ->
        String.get (Z.to_nat (c / 16)) lower_hex = Some (hex_digit (c / 16)) /\
        String.get (Z.to_nat (c mod 16)) lower_hex = Some (hex_digit (c mod 16)))
  /\ hex_to_rgb (rgb_to_hex (r, g, b)) = Ok (r, g, b).
Proof.
  intros Hr Hg Hb.
  assert (Hhex : rgb_to_hex (r, g, b) =
    String "#"
      (String (hex_digit (r / 16)) (String (hex_digit (r mod 16))
      (String (hex_digit (g / 16)) (String (hex_digit (g mod 16))
      (String (hex_digit (b / 16)) (String (hex_digit (b mod 16)) ""))))))).
  { unfold rgb_to_hex.
    rewrite (format_02x_channel r Hr), (format_02x_channel g Hg),
      (format_02x_channel b Hb). reflexivity. }
  split; [exact Hhex|]. split.
  - intros c Hc.
    assert (Hc' : 0 <= c <= 255) by (simpl in Hc; intuition subst; assumption).
    split; apply hex_digit_lower.
    + split; [apply Z.div_pos; lia | apply Z.div_lt_upper_bound; lia].
    + apply Z.mod_pos_bound; lia.
  - rewrite Hhex. unfold hex_to_rgb.
    change (lstrip "#" (String "#" ?s)) with (lstrip "#" s).
    cbn [lstrip]. rewrite (hex_digit_not_hash r Hr).
    cbn [String.length Nat.eqb negb substring].
    rewrite (py_int16_channel r Hr), (py_int16_channel g Hg),
      (py_int16_channel b Hb). reflexivity.
Qed.

Lemma hex_round_trip_witness :
  hex_to_rgb (rgb_to_hex (255, 0, 171)) = Ok (255, 0, 171).
Proof.
  apply (hex_round_trip 255 0 171); lia.
Defined.

(** *** What [hex_to_rgb] accepts *)

Lemma pair_check_all :
  forallb (fun a => forallb (pair_check a) all_ascii) all_ascii = true.
Proof. vm_compute. reflexivity. Qed.

Lemma pair_check_true (a b : ascii) : pair_check a b = true.
Proof.
  pose proof (all_ascii_forallb _ pair_check_all a) as H. cbv beta in H.
  exact (all_ascii_forallb _ H b).
Qed.

Lemma py_int16_hex_pair (a b : ascii) :
  is_hex_digit a = true -> is_hex_digit b = true ->
  py_int16 (String a (String b "")) = Ok (16 * hexval a + hexval b).
Proof.
  intros Ha Hb. pose proof (pair_check_true a b) as H. unfold pair_check in H.
  rewrite Ha, Hb in H. cbn [andb negb] in H.
  destruct (py_int16 (String a (String b ""))) as [v|[| |]]; try discriminate H.
  apply andb_prop in H. destruct H as [_ H]. apply Z.eqb_eq in H. now subst.
Qed.


Lemma lstrip_length_6 (v : string) :
  String.length v = 6%nat ->
  exists c0 c1 c2 c3 c4 c5,
    v = String c0 (String c1 (String c2 (String c3 (String c4 (String c5 ""))))).
Proof.
  intros H.
  destruct v as [|c0 [|c1 [|c2 [|c3 [|c4 [|c5 [|c6 v]]]]]]]; try discriminate H.
  now exists c0, c1, c2, c3, c4, c5.
Qed.




(** Signs and white space inside a group are read by [int(_, 16)] as well. *)
Example hex_to_rgb_signed_groups : hex_to_rgb "+1-2 3" = Ok (1, -2, 3).
Proof. vm_compute. reflexivity. Qed.

End HexProperties.

(** ** The order of binary64 values *)

Section SpecFloatOrder.
Local Open Scope Z_scope.

Ltac split_compare :=
  repeat match goal with
  | |- context [Pos.compare_cont Eq ?a ?b] =>
      change (Pos.compare_cont Eq a b) with (Pos.compare a b);
      destruct (Pos.compare_spec a b)
  | |- context [Z.compare ?a ?b] => destruct (Z.compare_spec a b)
  end.

Lemma SFleb_SFle (x y : spec_float) : SFleb x y = true <-> SFle x y.
Proof.
  unfold SFleb.
  destruct x as [s1|s1| |s1 m1 e1], y as [s2|s2| |s2 m2 e2]; simpl;
    try destruct s1; try destruct s2; simpl; split_compare; simpl;
    intuition (try discriminate; try lia).
Qed.



Lemma SFle_trans (x y z : spec_float) : SFle x y -> SFle y z -> SFle x z.
Proof.
  destruct x as [s1|s1| |s1 m1 e1], y as [s2|s2| |s2 m2 e2],
    z as [s3|s3| |s3 m3 e3]; simpl;
    try destruct s1; try destruct s2; try destruct s3; simpl;
    intuition (try discriminate; try lia).
Qed.



End SpecFloatOrder.

Section Binary64Order.
Local Open Scope float_scope.




Lemma fle_trans (x y z : float) : fle x y -> fle y z -> fle x z.
Proof.
  unfold fle. rewrite !FloatAxioms.leb_spec, !SFleb_SFle. apply SFle_trans.
Qed.


End Binary64Order.

(** ** Truncation of an in-range coordinate *)

Section Truncation.
Local Open Scope Z_scope.

Lemma digits2_pos_bound (m : positive) : Zpos m < 2 ^ Zpos (digits2_pos m).
Proof.
  induction m as [m IH|m IH|]; cbn [digits2_pos].
  - rewrite Pos2Z.inj_succ, Z.pow_succ_r by lia. lia.
  - rewrite Pos2Z.inj_succ, Z.pow_succ_r by lia. lia.
  - reflexivity.
Qed.

Lemma valid_binary_mantissa (s : bool) (m : positive) (e : Z) :
  valid_binary (S754_finite s m e) = true -> Zpos m < 2 ^ 53.
Proof.
  cbn [SpecFloat.valid_binary]. unfold bounded, canonical_mantissa, fexp.
  intros H. apply andb_prop in H. destruct H as [H _]. apply Z.eqb_eq in H.
  assert (Hd : Zpos (digits2_pos m) <= 53) by (unfold prec in H; lia).
  eapply Z.lt_le_trans; [apply digits2_pos_bound|].
  apply Z.pow_le_mono_r; lia.
Qed.

Lemma Prim2SF_0 : Prim2SF 0%float = S754_zero false.
Proof. reflexivity. Qed.

Lemma Prim2SF_255 : Prim2SF 255%float = S754_finite false 8972014882652160 (-45).
Proof. vm_compute. reflexivity. Qed.

(** The shape of a binary64 number that lies in [[0, 255]]. *)
Lemma coord_in_range_shape (x : float) :
  coord_in_range x = true ->
  (exists s, Prim2SF x = S754_zero s) \/
  (exists m p, Prim2SF x = S754_finite false m (Zneg p) /\
               Zpos m <= 255 * 2 ^ Zpos p /\ 45 <= Zpos p).
Proof.
  unfold coord_in_range. intros H. apply andb_prop in H. destruct H as [H0 H1].
  rewrite FloatAxioms.leb_spec, SFleb_SFle, Prim2SF_0 in H0.
  rewrite FloatAxioms.leb_spec, SFleb_SFle, Prim2SF_255 in H1.
  pose proof (Prim2SF_valid x) as Hv.
  destruct (Prim2SF x) as [s|s| |s m e]; cbn [SFle] in H0, H1.
  - left. now exists s.
  - subst s. discriminate H1.
  - contradiction.
  - right. subst s. apply valid_binary_mantissa in Hv.
    destruct H1 as [He|[He Hm]].
    + destruct e as [|p|p]; try lia. exists m, p. split; [reflexivity|].
      split; [|lia].
      assert (2 ^ 46 <= 2 ^ Zpos p) by (apply Z.pow_le_mono_r; lia).
      change (2 ^ 53) with (128 * 2 ^ 46) in Hv. lia.
    + subst e. exists m, 45%positive. split; [reflexivity|].
      split; [|lia]. change (255 * 2 ^ 45) with 8972014882652160. exact Hm.
Qed.

(** On a coordinate in [[0, 255]], [astype_int] is the floor of the exact
    value, and lands in [[0, 255]]. *)
Lemma astype_int_floor (x : float) :
  coord_in_range x = true ->
  exists q, float_value x = Some q /\ (0 <= q <= 255)%Q /\
            astype_int x = Qfloor q /\ 0 <= astype_int x <= 255.
Proof.
  intros H. unfold float_value, astype_int.
  destruct (coord_in_range_shape x H) as [[s E]|(m & p & E & Hm & Hp)]; rewrite E.
  - exists 0%Q. cbn [SF_value]. repeat split; try reflexivity; try lia;
      discriminate.
  - cbn [SF_value].
    exists (Zpos m # 2 ^ p)%Q.
    assert (Hpow : Zpos (2 ^ p) = 2 ^ Zpos p) by apply Pos2Z.inj_pow.
    assert (Hsh : Z.shiftl (Zpos m) (Zneg p) = Zpos m / 2 ^ Zpos p).
    { change (Zneg p) with (- Zpos p). rewrite Z.shiftl_opp_r.
      apply Z.shiftr_div_pow2. lia. }
    assert (Hpos : 0 < 2 ^ Zpos p) by (apply Z.pow_pos_nonneg; lia).
    assert (Hq : 0 <= Zpos m / 2 ^ Zpos p <= 255).
    { split; [apply Z.div_pos; lia|].
      apply Z.div_le_upper_bound; lia. }
    cbv zeta. rewrite Hsh.
    assert (Hin : (int64_min <=? Zpos m / 2 ^ Zpos p) && (Zpos m / 2 ^ Zpos p <? 2 ^ 63) = true).
    { apply andb_true_intro. unfold int64_min. split; [apply Z.leb_le | apply Z.ltb_lt]; lia. }
    rewrite Hin.
    repeat split; try lia.
    + unfold Qle. simpl. lia.
    + unfold Qle. cbn [Qnum Qden]. rewrite Hpow. lia.
    + unfold Qfloor. now rewrite Hpow.
Qed.

End Truncation.

(** ** [sorted]: permutation, order and stability *)

Section SortedProperties.
Context {A : Type} (key : A -> float).
Local Open Scope float_scope.

Lemma insert_perm (x : A) (l : list A) : Permutation (insert key x l) (x :: l).
Proof.
  induction l as [|y l IH]; cbn [insert].
  - apply Permutation_refl.
  - destruct (key y <? key x).
    + eapply perm_trans; [apply perm_skip, IH | apply perm_swap].
    + apply Permutation_refl.
Qed.

Lemma sorted_perm (l : list A) : Permutation (sorted key l) l.
Proof.
  induction l as [|x l IH]; cbn [sorted fold_right].
  - apply perm_nil.
  - eapply perm_trans; [apply insert_perm | apply perm_skip, IH].
Qed.

Lemma sorted_length (l : list A) : List.length (sorted key l) = List.length l.
Proof. apply Permutation_length, sorted_perm. Qed.

Lemma sorted_Forall (P : A -> Prop) (l : list A) :
  Forall P l -> Forall P (sorted key l).
Proof.
  intros H. eapply Permutation_Forall; [|exact H].
  apply Permutation_sym, sorted_perm.
Qed.





End SortedProperties.

(** ** The luminance key is never NaN on channels in [0,255] *)

Section LuminanceKey.
Local Open Scope float_scope.




Lemma forallb_In {B : Type} (p : B -> bool) (l : list B) (x : B) :
  forallb p l = true -> In x l -> p x = true.
Proof. intros H. now apply forallb_forall. Qed.


End LuminanceKey.

(** ** The concrete engine meets the contract *)

Section ChunkFitContract.
Local Open Scope Z_scope.

Lemma clip_in_range (x : float) : coord_in_range (clip x) = true.
Proof.
  unfold clip. destruct (coord_in_range x) eqn:E; [exact E | reflexivity].
Qed.

Lemma mean_centroid_in_range (X : list color) : centroid_in_range (mean_centroid X).
Proof. unfold mean_centroid, centroid_in_range. auto using clip_in_range. Qed.

Lemma chunks_in_range (k : nat) (X : list color) :
  Forall centroid_in_range (chunks k X).
Proof.
  revert X. induction k as [|k IH]; intros X; [constructor|].
  destruct k as [|k'].
  - cbn [chunks]. constructor; [apply mean_centroid_in_range | constructor].
  - destruct X as [|p X]; [constructor|].
    change (chunks (S (S k')) (p :: X)) with (mean_centroid [p] :: chunks (S k') X).
    constructor; [apply mean_centroid_in_range | apply IH].
Qed.

Lemma chunks_length (k : nat) (X : list color) :
  (1 <= k <= List.length X)%nat -> List.length (chunks k X) = k.
Proof.
  revert X. induction k as [|k IH]; intros X Hk; [lia|].
  destruct k as [|k'].
  - reflexivity.
  - destruct X as [|p X]; [simpl in Hk; lia|].
    change (chunks (S (S k')) (p :: X)) with (mean_centroid [p] :: chunks (S k') X).
    cbn [List.length] in *. rewrite IH; lia.
Qed.

Lemma rotate_length {A : Type} (n : nat) (l : list A) :
  List.length (rotate n l) = List.length l.
Proof.
  unfold rotate. rewrite length_app, Nat.add_comm, <- length_app.
  now rewrite firstn_skipn.
Qed.

Lemma chunk_fit_clusters : engine_clusters chunk_fit.
Proof.
  intros k rs X g Hk _. unfold chunk_fit.
  destruct (k <? 1) eqn:E1; [apply Z.ltb_lt in E1; lia|].
  destruct (Z.of_nat (List.length X) <? k) eqn:E2; [apply Z.ltb_lt in E2; lia|].
  destruct rs as [s|]; cbn [fst]; eexists; (split; [reflexivity|]); split;
    try apply chunks_in_range;
    rewrite chunks_length; try lia; rewrite rotate_length; lia.
Qed.

Lemma chunk_fit_validates : engine_validates chunk_fit.
Proof.
  intros k rs X g H. unfold chunk_fit.
  destruct (k <? 1) eqn:E1; [reflexivity|].
  destruct (Z.of_nat (List.length X) <? k) eqn:E2; [reflexivity|].
  apply Z.ltb_ge in E1, E2.
  destruct H as [H|[H|H]]; try lia. subst X. simpl in E2. lia.
Qed.

Lemma chunk_fit_seeded : engine_seeded chunk_fit.
Proof.
  intros k s X g1 g2. unfold chunk_fit.
  destruct (k <? 1); [split; reflexivity|].
  destruct (Z.of_nat (List.length X) <? k); split; reflexivity.
Qed.

End ChunkFitContract.

(** ** [extract_palette] *)

Section ExtractPaletteProperties.
Context {rng : Type}.
Variable fit : Z -> option Z -> list color -> rng -> result (list centroid) * rng.
Local Open Scope Z_scope.

Lemma extract_palette_unfold (pixels : list color) (k : Z) (g g' : rng)
    (centers : list centroid) :
  fit k (Some 0) pixels g = (Ok centers, g') ->
  extract_palette fit pixels k g =
    (Ok (map Build_PaletteColor
           (sorted luminance (map centroid_astype_int centers))), g').
Proof. intros H. unfold extract_palette. rewrite H. reflexivity. Qed.

Lemma extract_palette_raise (pixels : list color) (k : Z) (g : rng) (e : exn) :
  fst (fit k (Some 0) pixels g) = Raise e ->
  fst (extract_palette fit pixels k g) = Raise e.
Proof.
  unfold extract_palette. destruct (fit k (Some 0) pixels g) as [fitted g'].
  cbn [fst]. intros ->. reflexivity.
Qed.

Lemma centroid_astype_int_valid (c : centroid) :
  centroid_in_range c -> valid_pixel (centroid_astype_int c).
Proof.
  destruct c as [[x y] z]. intros (Hx & Hy & Hz). cbn [centroid_astype_int valid_pixel].
  destruct (astype_int_floor x Hx) as (? & _ & _ & _ & ?).
  destruct (astype_int_floor y Hy) as (? & _ & _ & _ & ?).
  destruct (astype_int_floor z Hz) as (? & _ & _ & _ & ?).
  auto.
Qed.

Lemma centers_astype_int_valid (centers : list centroid) :
  Forall centroid_in_range centers ->
  Forall valid_pixel (map centroid_astype_int centers).
Proof.
  intros H. apply Forall_map. eapply Forall_impl; [|exact H].
  apply centroid_astype_int_valid.
Qed.

(** C1.  With an engine that returns [k] in-range centres whenever
    [1 <= k <= number of samples], [extract_palette] returns a palette of
    exactly [k] entries, every channel of which is an integer of [0,255]. *)
Theorem extract_palette_size_and_range :
  engine_clusters fit ->
  forall (pixels : list color) (k : Z) (g : rng),
    1 <= k -> k <= Z.of_nat (List.length pixels) -> Forall valid_pixel pixels ->
    exists palette,
      fst (extract_palette fit pixels k g) = Ok palette /\
      Z.of_nat (List.length palette) = k /\
      Forall (fun pc => valid_pixel (rgb pc)) palette.
Proof.
  intros Hfit pixels k g Hk1 Hk2 Hpx.
  destruct (Hfit k (Some 0) pixels g (conj Hk1 Hk2) Hpx) as (centers & Hc & Hlen & Hin).
  destruct (fit k (Some 0) pixels g) as [fitted g'] eqn:E. cbn [fst] in Hc. subst fitted.
  rewrite (extract_palette_unfold _ _ _ _ _ E). cbn [fst].
  eexists. split; [reflexivity|]. split.
  - now rewrite length_map, sorted_length, length_map.
  - apply Forall_map. cbn [rgb]. apply sorted_Forall.
    apply centers_astype_int_valid, Hin.
Qed.



(** C3.  With an engine whose seeded runs do not depend on the
    process-wide generator, two calls of [extract_palette] on the same
    samples and the same [k] return the same result, whatever the state of
    that generator at each call, and leave it as they found it. *)
Theorem extract_palette_deterministic :
  engine_seeded fit ->
  forall (pixels : list color) (k : Z) (g1 g2 : rng),
    fst (extract_palette fit pixels k g1) = fst (extract_palette fit pixels k g2) /\
    snd (extract_palette fit pixels k g1) = g1.
Proof.
  intros Hfit pixels k g1 g2. destruct (Hfit k 0 pixels g1 g2) as [H1 H2].
  unfold extract_palette.
  destruct (fit k (Some 0) pixels g1) as [f1 g1'].
  destruct (fit k (Some 0) pixels g2) as [f2 g2'].
  cbn [fst snd] in *. now subst.
Qed.


(** C9.  With an engine that rejects [k < 1], [k] above the number of
    samples and an empty sample array, [extract_palette] fails with that
    [ValueError] in each of these cases: no palette is returned and no
    default stands in for the argument. *)
Theorem extract_palette_rejects_invalid :
  engine_validates fit ->
  forall (pixels : list color) (k : Z) (g : rng),
    (k < 1 \/ Z.of_nat (List.length pixels) < k ->
       fst (extract_palette fit pixels k g) = Raise ValueError) /\
    (pixels = [] -> fst (extract_palette fit pixels k g) = Raise ValueError).
Proof.
  intros Hfit pixels k g. split; intros H; apply extract_palette_raise, Hfit; tauto.
Qed.

End ExtractPaletteProperties.

(** *** Runs with the concrete engine *)

Section ExtractPaletteRuns.
Local Open Scope Z_scope.

Lemma extract_palette_size_and_range_witness :
  exists palette,
    fst (extract_palette chunk_fit four_pixels 4 0%nat) = Ok palette /\
    Z.of_nat (List.length palette) = 4 /\
    Forall (fun pc => valid_pixel (rgb pc)) palette.
Proof.
  apply (extract_palette_size_and_range chunk_fit chunk_fit_clusters).
  - lia.
  - simpl. lia.
  - unfold four_pixels, valid_pixel. repeat constructor; lia.
Defined.



Lemma extract_palette_deterministic_witness :
  fst (extract_palette chunk_fit four_pixels 2 3%nat) =
  fst (extract_palette chunk_fit four_pixels 2 8%nat) /\
  snd (extract_palette chunk_fit four_pixels 2 3%nat) = 3%nat.
Proof.
  apply (extract_palette_deterministic chunk_fit chunk_fit_seeded).
Defined.

(** Without a seed the same engine does depend on the generator: the
    determinism above comes from [random_state=0]. *)
Example chunk_fit_unseeded_differs :
  fst (chunk_fit 2 None four_pixels 0%nat) <> fst (chunk_fit 2 None four_pixels 1%nat).
Proof. vm_compute. discriminate. Qed.

Lemma extract_palette_rejects_invalid_witness :
  fst (extract_palette chunk_fit four_pixels 0 0%nat) = Raise ValueError /\
  fst (extract_palette chunk_fit four_pixels 5 0%nat) = Raise ValueError /\
  fst (extract_palette chunk_fit [] 1 0%nat) = Raise ValueError.
Proof.
  pose proof (extract_palette_rejects_invalid chunk_fit chunk_fit_validates) as H.
  split; [|split].
  - apply (proj1 (H four_pixels 0 0%nat)). left. lia.
  - apply (proj1 (H four_pixels 5 0%nat)). right. simpl. lia.
  - apply (proj2 (H [] 1 0%nat)). reflexivity.
Defined.

(** The tie of [four_pixels]: as real numbers the two luminances are
    equal, the binary64 keys are not, and the palette lists the entries by
    key, not in the order of emission. *)
Example luminance_tie_binary64 :
  (2126 * 31 + 7152 * 3 + 722 * 9 = 2126 * 0 + 7152 * 0 + 722 * 130) /\
  (luminance (0, 0, 130)%Z <? luminance (31, 3, 9)%Z)%float = true /\
  fst (extract_palette chunk_fit four_pixels 4 0%nat) =
    Ok [ {| rgb := (0, 0, 0) |}; {| rgb := (0, 0, 130) |};
         {| rgb := (31, 3, 9) |}; {| rgb := (255, 255, 255) |} ].
Proof. vm_compute. repeat split. Qed.

(** *** C4 as stated: rounding to nearest and clamping *)




End ExtractPaletteRuns.

(** ** [colorsys] on rationals *)

Section ColorsysProperties.
Import colorsys.
Local Open Scope Q_scope.

Lemma Qltb_lt (x y : Q) : Qltb x y = true <-> x < y.
Proof.
  unfold Qltb. rewrite negb_true_iff, <- not_true_iff_false, Qle_bool_iff.
  split; [apply Qnot_le_lt | apply Qlt_not_le].
Qed.

Lemma Qltb_ge (x y : Q) : Qltb x y = false <-> y <= x.
Proof. unfold Qltb. rewrite negb_false_iff. apply Qle_bool_iff. Qed.

Lemma Qltb_compat (x x' y y' : Q) : x == x' -> y == y' -> Qltb x y = Qltb x' y'.
Proof.
  intros Hx Hy.
  destruct (Qltb x' y') eqn:E.
  - apply Qltb_lt. apply Qltb_lt in E. now rewrite Hx, Hy.
  - apply Qltb_ge. apply Qltb_ge in E. now rewrite Hx, Hy.
Qed.

Lemma Qeq_bool_false (x y : Q) : ~ x == y -> Qeq_bool x y = false.
Proof.
  intros H. apply not_true_iff_false. intros E. apply H.
  now apply Qeq_bool_iff.
Qed.

Lemma Qeq_bool_true (x y : Q) : x == y -> Qeq_bool x y = true.
Proof. apply Qeq_bool_iff. Qed.

(** *** Remainders modulo 1 *)

Lemma cong1_refl (x : Q) : cong1 x x.
Proof. exists 0%Z. ring. Qed.

Lemma cong1_shift (x y : Q) (k : Z) : x == y + inject_Z k -> cong1 x y.
Proof. intros H. now exists k. Qed.

Lemma cong1_trans (x y z : Q) : cong1 x y -> cong1 y z -> cong1 x z.
Proof.
  intros [k Hk] [j Hj]. exists (j + k)%Z. rewrite Hk, Hj, inject_Z_plus. ring.
Qed.

Lemma cong1_sym (x y : Q) : cong1 x y -> cong1 y x.
Proof.
  intros [k Hk]. exists (- k)%Z. rewrite Hk, inject_Z_opp. ring.
Qed.

Lemma cong1_add (x y c : Q) : cong1 x y -> cong1 (x + c) (y + c).
Proof. intros [k Hk]. exists k. rewrite Hk. ring. Qed.

Lemma cong1_sub (x y c : Q) : cong1 x y -> cong1 (x - c) (y - c).
Proof. intros [k Hk]. exists k. rewrite Hk. ring. Qed.

Lemma Qfloor_unique (x : Q) (k : Z) :
  inject_Z k <= x -> x < inject_Z k + 1 -> Qfloor x = k.
Proof.
  intros H1 H2. pose proof (Qfloor_le x) as F1. pose proof (Qlt_floor x) as F2.
  rewrite inject_Z_plus in F2. change (inject_Z 1) with 1 in F2.
  assert (A : inject_Z (Qfloor x) < inject_Z (k + 1)).
  { rewrite inject_Z_plus. change (inject_Z 1) with 1. lra. }
  assert (B : inject_Z k < inject_Z (Qfloor x + 1)).
  { rewrite inject_Z_plus. change (inject_Z 1) with 1. lra. }
  rewrite <- Zlt_Qlt in A, B. lia.
Qed.

Lemma fmod1_cong (x u : Q) : cong1 x u -> 0 <= u -> u < 1 -> fmod1 x == u.
Proof.
  intros [k Hk] H0 H1. unfold fmod1.
  rewrite (Qfloor_unique x k) by lra. lra.
Qed.

Lemma fmod1_range (x : Q) : 0 <= fmod1 x /\ fmod1 x < 1.
Proof.
  unfold fmod1. pose proof (Qfloor_le x) as F1. pose proof (Qlt_floor x) as F2.
  rewrite inject_Z_plus in F2. change (inject_Z 1) with 1 in F2. lra.
Qed.

Lemma fmod1_cong1 (x : Q) : cong1 (fmod1 x) x.
Proof. exists (- Qfloor x)%Z. unfold fmod1. rewrite inject_Z_opp. ring. Qed.

(** *** The four pieces of [_v] *)

Lemma _v_sector (m1 m2 hue u : Q) :
  cong1 hue u -> 0 <= u -> u < 1 ->
  (u < 1 # 6 -> _v m1 m2 hue == m1 + (m2 - m1) * u * 6) /\
  (1 # 6 <= u -> u < 1 # 2 -> _v m1 m2 hue == m2) /\
  (1 # 2 <= u -> u < 2 # 3 -> _v m1 m2 hue == m1 + (m2 - m1) * ((2 # 3) - u) * 6) /\
  (2 # 3 <= u -> _v m1 m2 hue == m1).
Proof.
  intros Hc H0 H1. pose proof (fmod1_cong hue u Hc H0 H1) as Hu.
  unfold _v. cbv zeta.
  rewrite (Qltb_compat (fmod1 hue) u ONE_SIXTH (1 # 6) Hu ltac:(reflexivity)).
  rewrite (Qltb_compat (fmod1 hue) u (1 # 2) (1 # 2) Hu ltac:(reflexivity)).
  rewrite (Qltb_compat (fmod1 hue) u TWO_THIRD (2 # 3) Hu ltac:(reflexivity)).
  assert (E23 : TWO_THIRD == 2 # 3) by reflexivity.
  repeat split; intros.
  - rewrite (proj2 (Qltb_lt u (1 # 6))) by assumption. now rewrite Hu.
  - rewrite (proj2 (Qltb_ge u (1 # 6))) by assumption.
    now rewrite (proj2 (Qltb_lt u (1 # 2))) by assumption.
  - rewrite (proj2 (Qltb_ge u (1 # 6))) by lra.
    rewrite (proj2 (Qltb_ge u (1 # 2))) by assumption.
    rewrite (proj2 (Qltb_lt u (2 # 3))) by assumption. now rewrite Hu, E23.
  - rewrite (proj2 (Qltb_ge u (1 # 6))) by lra.
    rewrite (proj2 (Qltb_ge u (1 # 2))) by lra.
    now rewrite (proj2 (Qltb_ge u (2 # 3))) by assumption.
Qed.

(** [_v] depends on its hue modulo 1 only, and on the values of [m1] and
    [m2]. *)
Lemma _v_compat (m1 m2 m1' m2' hue hue' : Q) :
  m1 == m1' -> m2 == m2' -> cong1 hue hue' -> _v m1 m2 hue == _v m1' m2' hue'.
Proof.
  intros E1 E2 Hc.
  destruct (fmod1_range hue') as [H0 H1].
  assert (Hc' : cong1 hue (fmod1 hue')).
  { eapply cong1_trans; [exact Hc | apply cong1_sym, fmod1_cong1]. }
  destruct (_v_sector m1 m2 hue _ Hc' H0 H1) as (A1 & A2 & A3 & A4).
  destruct (_v_sector m1' m2' hue' _ (cong1_sym _ _ (fmod1_cong1 hue')) H0 H1)
    as (B1 & B2 & B3 & B4).
  destruct (Qlt_le_dec (fmod1 hue') (1 # 6)) as [L1|L1];
    [rewrite A1, B1 by assumption; now rewrite E1, E2|].
  destruct (Qlt_le_dec (fmod1 hue') (1 # 2)) as [L2|L2];
    [rewrite A2, B2 by assumption; exact E2|].
  destruct (Qlt_le_dec (fmod1 hue') (2 # 3)) as [L3|L3];
    [rewrite A3, B3 by assumption; now rewrite E1, E2|].
  rewrite A4, B4 by assumption. exact E1.
Qed.

(** Half a turn maps [_v] to its mirror image between [m1] and [m2]. *)
Lemma _v_half_turn (m1 m2 hue : Q) :
  _v m1 m2 (hue + (1 # 2)) == m1 + m2 - _v m1 m2 hue.
Proof.
  destruct (fmod1_range hue) as [H0 H1].
  pose proof (cong1_sym _ _ (fmod1_cong1 hue)) as Hc.
  set (u := fmod1 hue) in *.
  destruct (_v_sector m1 m2 hue u Hc H0 H1) as (A1 & A2 & A3 & A4).
  destruct (Qlt_le_dec u (1 # 2)) as [L|L].
  - assert (Hc' : cong1 (hue + (1 # 2)) (u + (1 # 2))) by now apply cong1_add.
    destruct (_v_sector m1 m2 _ _ Hc' ltac:(lra) ltac:(lra)) as (_ & _ & B3 & B4).
    destruct (Qlt_le_dec u (1 # 6)) as [L1|L1].
    + rewrite B3, A1 by lra. ring.
    + rewrite B4, A2 by lra. ring.
  - assert (Hc' : cong1 (hue + (1 # 2)) (u - (1 # 2))).
    { eapply cong1_trans; [apply cong1_add, Hc|]. exists 1%Z. ring. }
    destruct (_v_sector m1 m2 _ _ Hc' ltac:(lra) ltac:(lra)) as (B1 & B2 & _ & _).
    destruct (Qlt_le_dec u (2 # 3)) as [L3|L3].
    + rewrite B1, A3 by lra. ring.
    + rewrite B2, A4 by lra. ring.
Qed.

End ColorsysProperties.

(** ** From RGB to HLS and back *)

Section HlsRoundTrip.
Import colorsys.
Local Open Scope Q_scope.

Lemma max2_spec (a b : Q) : a <= max2 a b /\ b <= max2 a b /\ (max2 a b = a \/ max2 a b = b).
Proof.
  unfold max2. destruct (Qltb a b) eqn:E.
  - apply Qltb_lt in E. repeat split; auto; lra.
  - apply Qltb_ge in E. repeat split; auto; lra.
Qed.

Lemma min2_spec (a b : Q) : min2 a b <= a /\ min2 a b <= b /\ (min2 a b = a \/ min2 a b = b).
Proof.
  unfold min2. destruct (Qltb b a) eqn:E.
  - apply Qltb_lt in E. repeat split; auto; lra.
  - apply Qltb_ge in E. repeat split; auto; lra.
Qed.

Lemma max3_spec (a b c : Q) :
  a <= max3 a b c /\ b <= max3 a b c /\ c <= max3 a b c /\
  (max3 a b c = a \/ max3 a b c = b \/ max3 a b c = c).
Proof.
  unfold max3. destruct (max2_spec a b) as (A1 & A2 & A3).
  destruct (max2_spec (max2 a b) c) as (B1 & B2 & B3).
  repeat split; try lra. destruct B3 as [-> | ->]; tauto.
Qed.

Lemma min3_spec (a b c : Q) :
  min3 a b c <= a /\ min3 a b c <= b /\ min3 a b c <= c /\
  (min3 a b c = a \/ min3 a b c = b \/ min3 a b c = c).
Proof.
  unfold min3. destruct (min2_spec a b) as (A1 & A2 & A3).
  destruct (min2_spec (min2 a b) c) as (B1 & B2 & B3).
  repeat split; try lra. destruct B3 as [-> | ->]; tauto.
Qed.

Lemma hls_to_rgb_chromatic (h l s : Q) :
  Qeq_bool s 0 = false ->
  hls_to_rgb h l s =
    (_v (2 * l - m2_of l s) (m2_of l s) (h + ONE_THIRD),
     _v (2 * l - m2_of l s) (m2_of l s) h,
     _v (2 * l - m2_of l s) (m2_of l s) (h - ONE_THIRD)).
Proof. intros H. unfold hls_to_rgb. rewrite H. reflexivity. Qed.

(** With the largest channel [M] first: the three values of [_v] at the hue
    of a colour whose other channels are [b] and [c], one of them the
    smallest channel [m]. *)
Lemma _v_at_hue (M m b c : Q) :
  m < M -> m <= b -> b <= M -> m <= c -> c <= M -> b == m \/ c == m ->
  _v m M (((M - c) / (M - m) - (M - b) / (M - m)) / 6 + (1 # 3)) == M /\
  _v m M (((M - c) / (M - m) - (M - b) / (M - m)) / 6) == b /\
  _v m M (((M - c) / (M - m) - (M - b) / (M - m)) / 6 - (1 # 3)) == c.
Proof.
  intros HmM Hb1 Hb2 Hc1 Hc2 Hmin.
  assert (Hb : b == M - (M - b) / (M - m) * (M - m)) by (field; lra).
  assert (Hc : c == M - (M - c) / (M - m) * (M - m)) by (field; lra).
  assert (Tb : 0 <= (M - b) / (M - m) /\ (M - b) / (M - m) <= 1).
  { split; [apply Qle_shift_div_l | apply Qle_shift_div_r]; lra. }
  assert (Tc : 0 <= (M - c) / (M - m) /\ (M - c) / (M - m) <= 1).
  { split; [apply Qle_shift_div_l | apply Qle_shift_div_r]; lra. }
  assert (Eb : b == m -> (M - b) / (M - m) == 1) by (intros E; rewrite E; field; lra).
  assert (Ec : c == m -> (M - c) / (M - m) == 1) by (intros E; rewrite E; field; lra).
  assert (Eb' : (M - b) / (M - m) == 1 -> b == m) by (intros E; rewrite Hb, E; ring).
  assert (Ec' : (M - c) / (M - m) == 1 -> c == m) by (intros E; rewrite Hc, E; ring).
  assert (Zb : (M - b) / (M - m) == 0 -> b == M) by (intros E; rewrite Hb, E; ring).
  assert (Zc : (M - c) / (M - m) == 0 -> c == M) by (intros E; rewrite Hc, E; ring).
  set (tb := (M - b) / (M - m)) in *. set (tc := (M - c) / (M - m)) in *.
  assert (Hphi : (tc - tb) / 6 == (tc - tb) * (1 # 6)) by (field).
  set (phi := (tc - tb) / 6) in *.
  destruct Hmin as [Hmin|Hmin].
  - (* b is the smallest channel: tb = 1, phi in [-1/6, 0] *)
    pose proof (Eb Hmin) as Etb.
    destruct (_v_sector m M (phi + (1 # 3)) (phi + (1 # 3)) (cong1_refl _)
                ltac:(lra) ltac:(lra)) as (_ & A2 & _ & _).
    split; [apply A2; lra|]. split.
    + destruct (Qlt_le_dec tc 1) as [L|L].
      * assert (Hk : cong1 phi (phi + 1)) by (exists (-1)%Z; ring).
        destruct (_v_sector m M phi (phi + 1) Hk ltac:(lra) ltac:(lra))
          as (_ & _ & _ & A4).
        rewrite A4 by lra. now symmetry.
      * assert (Etc : tc == 1) by lra.
        destruct (_v_sector m M phi phi (cong1_refl _) ltac:(lra) ltac:(lra))
          as (A1 & _ & _ & _).
        rewrite A1 by lra. rewrite Hmin, Hphi, Etc, Etb. ring.
    + assert (Hk : cong1 (phi - (1 # 3)) (phi + (2 # 3))) by (exists (-1)%Z; ring).
      destruct (_v_sector m M _ _ Hk ltac:(lra) ltac:(lra)) as (_ & _ & A3 & A4).
      destruct (Qlt_le_dec tc 1) as [L|L].
      * rewrite A3 by lra. rewrite Hc, Hphi, Etb. ring.
      * assert (Etc : tc == 1) by lra. rewrite A4 by lra.
        symmetry. now apply Ec'.
  - (* c is the smallest channel: tc = 1, phi in [0, 1/6] *)
    pose proof (Ec Hmin) as Etc. split; [|split].
    + destruct (_v_sector m M (phi + (1 # 3)) (phi + (1 # 3)) (cong1_refl _)
                  ltac:(lra) ltac:(lra)) as (_ & A2 & A3 & _).
      destruct (Qlt_le_dec 0 tb) as [L|L].
      * apply A2; lra.
      * assert (Etb : tb == 0) by lra. rewrite A3 by lra.
        rewrite Hphi, Etc, Etb. ring.
    + destruct (_v_sector m M phi phi (cong1_refl _) ltac:(lra) ltac:(lra))
        as (A1 & A2 & _ & _).
      destruct (Qlt_le_dec 0 tb) as [L|L].
      * rewrite A1 by lra. rewrite Hb, Hphi, Etc. ring.
      * assert (Etb : tb == 0) by lra. rewrite A2 by lra.
        symmetry. now apply Zb.
    + assert (Hk : cong1 (phi - (1 # 3)) (phi + (2 # 3))) by (exists (-1)%Z; ring).
      destruct (_v_sector m M _ _ Hk ltac:(lra) ltac:(lra)) as (_ & _ & _ & A4).
      rewrite A4 by lra. now symmetry.
Qed.

Lemma rgb_to_hls_gray (x y z : Q) :
  min3 x y z == max3 x y z ->
  rgb_to_hls x y z = Ok (0, (max3 x y z + min3 x y z) / 2, 0).
Proof.
  intros H. unfold rgb_to_hls. cbv zeta. now rewrite (Qeq_bool_true _ _ H).
Qed.

(** A hue that is [u] up to whole turns is [u + j] up to whole turns. *)
Lemma cong1_fmod1 (x u : Q) (j : Z) : x == u + inject_Z j -> cong1 (fmod1 x) u.
Proof.
  intros H. eapply cong1_trans; [apply fmod1_cong1|]. now exists j.
Qed.

Lemma cong1_add_turns (x u c d : Q) (j : Z) :
  cong1 x u -> c == d + inject_Z j -> cong1 (x + c) (u + d).
Proof.
  intros [k Hk] H. exists (k + j)%Z. rewrite Hk, H, inject_Z_plus. ring.
Qed.

(** A colour with two different channel values, all in [[0, 1]]: the
    conversion succeeds, the saturation is not zero, [hls_to_rgb]'s [m2] and
    [m1] are the largest and smallest channel, and [_v] gives the three
    channels back at the hue and a third of a turn on either side. *)
Lemma rgb_to_hls_chromatic (x y z : Q) :
  0 <= min3 x y z -> max3 x y z <= 1 -> min3 x y z < max3 x y z ->
  exists h l s,
    rgb_to_hls x y z = Ok (h, l, s) /\
    Qeq_bool s 0 = false /\
    m2_of l s == max3 x y z /\
    2 * l - m2_of l s == min3 x y z /\
    _v (min3 x y z) (max3 x y z) (h + (1 # 3)) == x /\
    _v (min3 x y z) (max3 x y z) h == y /\
    _v (min3 x y z) (max3 x y z) (h - (1 # 3)) == z.
Proof.
  intros H0 H1 Hlt.
  destruct (max3_spec x y z) as (Mx & My & Mz & Mcase).
  destruct (min3_spec x y z) as (mx & my & mz & mcase).
  unfold rgb_to_hls. cbv zeta.
  set (M := max3 x y z) in *. set (m := min3 x y z) in *.
  assert (Mcase' : M == x \/ M == y \/ M == z).
  { destruct Mcase as [E|[E|E]]; rewrite E; auto using Qeq_refl. }
  assert (mcase' : m == x \/ m == y \/ m == z).
  { destruct mcase as [E|[E|E]]; rewrite E; auto using Qeq_refl. }
  clear Mcase mcase.
  rewrite (Qeq_bool_false m M) by lra.
  assert (Hr : ~ M - m == 0) by lra.
  assert (Hs : forall a, fdiv a (M - m) = Ok (a / (M - m))).
  { intros a. unfold fdiv. now rewrite (Qeq_bool_false _ _ Hr). }
  assert (Hsat : exists s,
    (if Qle_bool ((M + m) / 2) (1 # 2) then fdiv (M - m) (M + m)
     else fdiv (M - m) (2 - (M + m))) = Ok s /\
    Qeq_bool s 0 = false /\ m2_of ((M + m) / 2) s == M).
  { unfold m2_of. destruct (Qle_bool ((M + m) / 2) (1 # 2)) eqn:El.
    - assert (Hd : ~ M + m == 0) by lra.
      exists ((M - m) / (M + m)). unfold fdiv. rewrite (Qeq_bool_false _ _ Hd).
      split; [reflexivity|]. split.
      + apply Qeq_bool_false. intros E.
        assert (0 < (M - m) / (M + m)) by (apply Qlt_shift_div_l; lra). lra.
      + field. exact Hd.
    - assert (Hd : ~ 2 - (M + m) == 0) by lra.
      exists ((M - m) / (2 - (M + m))). unfold fdiv. rewrite (Qeq_bool_false _ _ Hd).
      split; [reflexivity|]. split.
      + apply Qeq_bool_false. intros E.
        assert (0 < (M - m) / (2 - (M + m))) by (apply Qlt_shift_div_l; lra). lra.
      + field. exact Hd. }
  destruct Hsat as (s & Es & Hs0 & Hm2). rewrite Es. cbn [bind].
  rewrite !Hs. cbn [bind].
  eexists _, _, s. split; [reflexivity|].
  split; [exact Hs0|]. split; [exact Hm2|].
  split; [rewrite Hm2; field|].
  destruct (Qeq_bool x M) eqn:Ex; [|destruct (Qeq_bool y M) eqn:Ey].
  - (* the red channel is the largest *)
    apply Qeq_bool_iff in Ex.
    assert (Hmin : y == m \/ z == m).
    { destruct mcase' as [E|[E|E]]; [exfalso|left|right]; lra. }
    destruct (_v_at_hue M m y z Hlt my My mz Mz Hmin) as (A1 & A2 & A3).
    set (phi := ((M - z) / (M - m) - (M - y) / (M - m)) / 6) in *.
    assert (Hh : cong1 (fmod1 phi) phi) by apply fmod1_cong1.
    split; [|split].
    + rewrite (_v_compat m M m M _ (phi + (1 # 3))), A1; try reflexivity.
      * now symmetry.
      * now apply cong1_add.
    + rewrite (_v_compat m M m M _ phi), A2; try reflexivity. exact Hh.
    + rewrite (_v_compat m M m M _ (phi - (1 # 3))), A3; try reflexivity.
      now apply cong1_sub.
  - (* the green channel is the largest *)
    apply Qeq_bool_iff in Ey.
    assert (Ex' : ~ x == M) by (intros E; apply Qeq_bool_iff in E; congruence).
    assert (Hmin : z == m \/ x == m).
    { destruct mcase' as [E|[E|E]]; [right|exfalso|left]; lra. }
    destruct (_v_at_hue M m z x Hlt mz Mz mx Mx Hmin) as (A1 & A2 & A3).
    set (phi := ((M - x) / (M - m) - (M - z) / (M - m)) / 6) in *.
    assert (Hh : cong1 (fmod1 ((2 + (M - x) / (M - m) - (M - z) / (M - m)) / 6))
                   (phi + (1 # 3))).
    { apply (cong1_fmod1 _ _ 0). unfold phi. field. exact Hr. }
    split; [|split].
    + rewrite (_v_compat m M m M _ (phi - (1 # 3))), A3; try reflexivity.
      eapply cong1_trans; [apply cong1_add, Hh|]. exists 1%Z. ring.
    + rewrite (_v_compat m M m M _ (phi + (1 # 3))), A1; try reflexivity.
      * now symmetry.
      * exact Hh.
    + rewrite (_v_compat m M m M _ phi), A2; try reflexivity.
      eapply cong1_trans; [apply cong1_sub, Hh|].
      exists 0%Z. ring.
  - (* the blue channel is the largest *)
    assert (Ex' : ~ x == M) by (intros E; apply Qeq_bool_iff in E; congruence).
    assert (Ey' : ~ y == M) by (intros E; apply Qeq_bool_iff in E; congruence).
    assert (Ez : z == M).
    { destruct Mcase' as [E|[E|E]]; [exfalso|exfalso|]; lra. }
    assert (Hmin : x == m \/ y == m).
    { destruct mcase' as [E|[E|E]]; [left|right|exfalso]; lra. }
    destruct (_v_at_hue M m x y Hlt mx Mx my My Hmin) as (A1 & A2 & A3).
    set (phi := ((M - y) / (M - m) - (M - x) / (M - m)) / 6) in *.
    assert (Hh : cong1 (fmod1 ((4 + (M - y) / (M - m) - (M - x) / (M - m)) / 6))
                   (phi + (2 # 3))).
    { apply (cong1_fmod1 _ _ 0). unfold phi. field. exact Hr. }
    split; [|split].
    + rewrite (_v_compat m M m M _ phi), A2; try reflexivity.
      eapply cong1_trans; [apply cong1_add, Hh|]. exists 1%Z. ring.
    + rewrite (_v_compat m M m M _ (phi - (1 # 3))), A3; try reflexivity.
      eapply cong1_trans; [exact Hh|]. exists 1%Z. ring.
    + rewrite (_v_compat m M m M _ (phi + (1 # 3))), A1; try reflexivity.
      * now symmetry.
      * eapply cong1_trans; [apply cong1_sub, Hh|].
        exists 0%Z. ring.
Qed.

End HlsRoundTrip.

(** ** [complementary_color] *)

Section ComplementProperties.
Import colorsys.
Local Open Scope Q_scope.

(** *** Half a turn of the hue on rational channels *)

Lemma half_div2 (a : Q) : a / 2 == a * (1 # 2).
Proof. field. Qed.

Lemma hls_half_turn (x y z : Q) :
  0 <= min3 x y z -> max3 x y z <= 1 ->
  exists h l s r2 g2 b2,
    rgb_to_hls x y z = Ok (h, l, s) /\
    hls_to_rgb (fmod1 (h + (1 # 2))) l s = (r2, g2, b2) /\
    r2 == max3 x y z + min3 x y z - x /\
    g2 == max3 x y z + min3 x y z - y /\
    b2 == max3 x y z + min3 x y z - z.
Proof.
  intros H0 H1.
  destruct (max3_spec x y z) as (Mx & My & Mz & _).
  destruct (min3_spec x y z) as (mx & my & mz & _).
  destruct (Qlt_le_dec (min3 x y z) (max3 x y z)) as [Hlt|Hge].
  - destruct (rgb_to_hls_chromatic x y z H0 H1 Hlt)
      as (h & l & s & E & Hs & Hm2 & Hm1 & Vx & Vy & Vz).
    exists h, l, s. rewrite (hls_to_rgb_chromatic _ _ _ Hs).
    do 3 eexists. split; [exact E|]. split; [reflexivity|].
    destruct (fmod1_cong1 (h + (1 # 2))) as [k Hk].
    split; [|split].
    + rewrite (_v_compat _ _ _ _ _ (h + (1 # 3) + (1 # 2)) Hm1 Hm2).
      * rewrite _v_half_turn, Vx. ring.
      * exists k. rewrite Hk. unfold ONE_THIRD. field.
    + rewrite (_v_compat _ _ _ _ _ (h + (1 # 2)) Hm1 Hm2).
      * rewrite _v_half_turn, Vy. ring.
      * exists k. rewrite Hk. ring.
    + rewrite (_v_compat _ _ _ _ _ (h - (1 # 3) + (1 # 2)) Hm1 Hm2).
      * rewrite _v_half_turn, Vz. ring.
      * exists k. rewrite Hk. unfold ONE_THIRD. field.
  - assert (E : min3 x y z == max3 x y z) by lra.
    rewrite (rgb_to_hls_gray x y z E).
    do 6 eexists. split; [reflexivity|]. split; [reflexivity|].
    rewrite half_div2. split; [|split]; lra.
Qed.

(** *** Rounding *)

Lemma py_round_compat (x y : Q) : x == y -> py_round x = py_round y.
Proof.
  intros H. unfold py_round. rewrite (Qfloor_comp x y H). cbv zeta.
  assert (E : Qcompare (x - inject_Z (Qfloor y)) (1 # 2) =
              Qcompare (y - inject_Z (Qfloor y)) (1 # 2)).
  { apply Qcompare_comp; [now rewrite H | reflexivity]. }
  now rewrite E.
Qed.

Lemma py_round_inject_Z (z : Z) : py_round (inject_Z z) = z.
Proof.
  unfold py_round. rewrite Qfloor_Z. cbv zeta.
  assert (E : Qcompare (inject_Z z - inject_Z z) (1 # 2) = Lt).
  { apply Qlt_alt. setoid_replace (inject_Z z - inject_Z z) with 0 by ring.
    reflexivity. }
  now rewrite E.
Qed.


(** *** Integer channels *)

Lemma channel_le (a b : Z) : (a <= b)%Z -> inject_Z a / 255 <= inject_Z b / 255.
Proof.
  intros H. unfold Qdiv. apply Qmult_le_compat_r; [|discriminate].
  now rewrite <- Zle_Qle.
Qed.

Lemma channel_max3 (r g b : Z) :
  max3 (inject_Z r / 255) (inject_Z g / 255) (inject_Z b / 255)
  == inject_Z (Z.max r (Z.max g b)) / 255.
Proof.
  destruct (max3_spec (inject_Z r / 255) (inject_Z g / 255) (inject_Z b / 255))
    as (A & B & C & D).
  pose proof (channel_le r (Z.max r (Z.max g b)) ltac:(lia)).
  pose proof (channel_le g (Z.max r (Z.max g b)) ltac:(lia)).
  pose proof (channel_le b (Z.max r (Z.max g b)) ltac:(lia)).
  assert (U : max3 (inject_Z r / 255) (inject_Z g / 255) (inject_Z b / 255)
              <= inject_Z (Z.max r (Z.max g b)) / 255)
    by (destruct D as [-> | [-> | ->]]; assumption).
  assert (L : inject_Z (Z.max r (Z.max g b)) / 255
              <= max3 (inject_Z r / 255) (inject_Z g / 255) (inject_Z b / 255)).
  { destruct (Z.max_spec g b) as [[_ E1]|[_ E1]];
      destruct (Z.max_spec r (Z.max g b)) as [[_ E2]|[_ E2]];
      rewrite E2, ?E1; assumption. }
  lra.
Qed.

Lemma channel_min3 (r g b : Z) :
  min3 (inject_Z r / 255) (inject_Z g / 255) (inject_Z b / 255)
  == inject_Z (Z.min r (Z.min g b)) / 255.
Proof.
  destruct (min3_spec (inject_Z r / 255) (inject_Z g / 255) (inject_Z b / 255))
    as (A & B & C & D).
  pose proof (channel_le (Z.min r (Z.min g b)) r ltac:(lia)).
  pose proof (channel_le (Z.min r (Z.min g b)) g ltac:(lia)).
  pose proof (channel_le (Z.min r (Z.min g b)) b ltac:(lia)).
  assert (L : inject_Z (Z.min r (Z.min g b)) / 255
              <= min3 (inject_Z r / 255) (inject_Z g / 255) (inject_Z b / 255))
    by (destruct D as [-> | [-> | ->]]; assumption).
  assert (U : min3 (inject_Z r / 255) (inject_Z g / 255) (inject_Z b / 255)
              <= inject_Z (Z.min r (Z.min g b)) / 255).
  { destruct (Z.min_spec g b) as [[_ E1]|[_ E1]];
      destruct (Z.min_spec r (Z.min g b)) as [[_ E2]|[_ E2]];
      rewrite E2, ?E1; assumption. }
  lra.
Qed.

(** The pipeline of [complementary_color] on channels in [0,255], and its
    result in closed form: every channel [c] becomes [max + min - c]. *)
Lemma complementary_color_pipeline (r g b : Z) :
  (0 <= r <= 255)%Z -> (0 <= g <= 255)%Z -> (0 <= b <= 255)%Z ->
  exists h l s r2 g2 b2,
    rgb_to_hls (inject_Z r / 255) (inject_Z g / 255) (inject_Z b / 255) = Ok (h, l, s) /\
    hls_to_rgb (fmod1 (h + (1 # 2))) l s = (r2, g2, b2) /\
    complementary_color (r, g, b) =
      Ok (py_round (r2 * 255), py_round (g2 * 255), py_round (b2 * 255)) /\
    r2 * 255 == inject_Z (Z.max r (Z.max g b) + Z.min r (Z.min g b) - r) /\
    g2 * 255 == inject_Z (Z.max r (Z.max g b) + Z.min r (Z.min g b) - g) /\
    b2 * 255 == inject_Z (Z.max r (Z.max g b) + Z.min r (Z.min g b) - b).
Proof.
  intros Hr Hg Hb.
  pose proof (channel_max3 r g b) as EM. pose proof (channel_min3 r g b) as Em.
  assert (H0 : 0 <= min3 (inject_Z r / 255) (inject_Z g / 255) (inject_Z b / 255)).
  { rewrite Em. setoid_replace 0 with (inject_Z 0 / 255) by reflexivity.
    apply channel_le. lia. }
  assert (H1 : max3 (inject_Z r / 255) (inject_Z g / 255) (inject_Z b / 255) <= 1).
  { rewrite EM. setoid_replace 1 with (inject_Z 255 / 255) by reflexivity.
    apply channel_le. lia. }
  destruct (hls_half_turn _ _ _ H0 H1)
    as (h & l & s & r2 & g2 & b2 & E1 & E2 & Vr & Vg & Vb).
  exists h, l, s, r2, g2, b2. split; [exact E1|]. split; [exact E2|]. split.
  - unfold complementary_color. rewrite E1. cbn [bind]. now rewrite E2.
  - rewrite Vr, Vg, Vb, EM, Em.
    unfold Z.sub. rewrite !inject_Z_plus, !inject_Z_opp. split; [|split]; field.
Qed.

Lemma complementary_color_closed (r g b : Z) :
  (0 <= r <= 255)%Z -> (0 <= g <= 255)%Z -> (0 <= b <= 255)%Z ->
  complementary_color (r, g, b) =
    Ok (Z.max r (Z.max g b) + Z.min r (Z.min g b) - r,
        Z.max r (Z.max g b) + Z.min r (Z.min g b) - g,
        Z.max r (Z.max g b) + Z.min r (Z.min g b) - b)%Z.
Proof.
  intros Hr Hg Hb.
  destruct (complementary_color_pipeline r g b Hr Hg Hb)
    as (h & l & s & r2 & g2 & b2 & _ & _ & E & Vr & Vg & Vb).
  rewrite E.
  now rewrite (py_round_compat _ _ Vr), (py_round_compat _ _ Vg),
    (py_round_compat _ _ Vb), !py_round_inject_Z.
Qed.







End ComplementProperties.

(** ** [complementary_color] evaluated on binary64 *)

Section Binary64Evaluation.
Local Open Scope Z_scope.

Lemma color_eqb_eq (c d : color) : color_eqb c d = true -> c = d.
Proof.
  destruct c as [[r g] b], d as [[r' g'] b']. cbn [color_eqb]. intros H.
  apply andb_prop in H. destruct H as [H Hb].
  apply andb_prop in H. destruct H as [Hr Hg].
  apply Z.eqb_eq in Hr, Hg, Hb. now subst.
Qed.

Lemma mirrors64_eq (c : color) :
  mirrors64 c = true -> complementary_color64 c = Ok (mirror c).
Proof.
  unfold mirrors64. destruct (complementary_color64 c) as [c'|e]; [|discriminate].
  intros H. now rewrite (color_eqb_eq _ _ H).
Qed.

Lemma grid_range : Forall (fun c => 0 <= c <= 255) grid.
Proof. unfold grid. repeat constructor; lia. Qed.

Lemma mirrors64_grid :
  forallb (fun r => forallb (fun g => forallb (fun b => mirrors64 (r, g, b))
    grid) grid) grid = true.
Proof. vm_compute. reflexivity. Qed.

Lemma mirrors64_greys : forallb (fun c => mirrors64 (c, c, c)) (Zrange 256) = true.
Proof. vm_compute. reflexivity. Qed.

(** On the 5832 colours of the grid, binary64 and rational arithmetic give
    the same complement. *)
Lemma complementary_color64_grid (r g b : Z) :
  In r grid -> In g grid -> In b grid ->
  complementary_color64 (r, g, b) = complementary_color (r, g, b).
Proof.
  intros Hr Hg Hb.
  pose proof (proj1 (Forall_forall _ _) grid_range) as R.
  rewrite (complementary_color_closed r g b) by auto.
  apply mirrors64_eq.
  pose proof (forallb_In _ _ _ mirrors64_grid Hr) as H1. cbv beta in H1.
  pose proof (forallb_In _ _ _ H1 Hg) as H2. cbv beta in H2.
  exact (forallb_In _ _ _ H2 Hb).
Qed.

(** Every grey of [0,255] is its own complement on binary64 as well. *)
Lemma complementary_color64_greys (c : Z) :
  0 <= c <= 255 -> complementary_color64 (c, c, c) = Ok (c, c, c).
Proof.
  intros Hc.
  pose proof (Zrange_forallb _ _ mirrors64_greys c ltac:(simpl; lia)) as H.
  cbv beta in H. rewrite (mirrors64_eq _ H). cbn [mirror].
  repeat f_equal; lia.
Qed.

Example complementary_color64_red :
  complementary_color64 (255, 0, 0) = Ok (0, 255, 255).
Proof. vm_compute. reflexivity. Qed.

End Binary64Evaluation.

(** * Further properties *)

(** ** The domain of the hexadecimal round trip *)

Section HexDomain.
Local Open Scope string_scope.
Local Open Scope Z_scope.

Lemma two_chars_check_all :
  forallb (fun i => two_chars_check (i - 15)) (Zrange 271) = true.
Proof. vm_compute. reflexivity. Qed.

Lemma format_02x_two_chars (c : Z) :
  -15 <= c <= 255 ->
  exists a b, format_02x c = String a (String b "") /\
              Ascii.eqb a "#" = false /\
              py_int16 (String a (String b "")) = Ok c.
Proof.
  intros Hc.
  pose proof (Zrange_forallb _ _ two_chars_check_all (c + 15) ltac:(simpl; lia)) as H.
  cbv beta in H. replace (c + 15 - 15) with c in H by lia.
  unfold two_chars_check in H.
  destruct (format_02x c) as [|a [|b [|? ?]]]; try discriminate H.
  exists a, b. apply andb_prop in H. destruct H as [H1 H2].
  split; [reflexivity|]. split; [now apply negb_true_iff | now apply result_eqb_eq].
Qed.

Lemma length_append (s t : string) :
  String.length (s ++ t) = (String.length s + String.length t)%nat.
Proof. induction s as [|a s IH]; cbn; [reflexivity | now rewrite IH]. Qed.

Lemma hex_digit_not_hash16 (n : Z) :
  0 <= n < 16 -> Ascii.eqb (hex_digit n) "#" = false.
Proof.
  intros Hn.
  assert (H : forallb (fun n => negb (Ascii.eqb (hex_digit n) "#")) (Zrange 16) = true)
    by (vm_compute; reflexivity).
  pose proof (Zrange_forallb _ _ H n ltac:(simpl; lia)) as H'.
  now apply negb_true_iff in H'.
Qed.

Lemma first_not_hash_app (s t : string) : first_not_hash s -> first_not_hash (s ++ t).
Proof. destruct s; [contradiction | trivial]. Qed.

Lemma hex_str_first (fuel : nat) (n : Z) :
  0 <= n -> first_not_hash (hex_str (S fuel) n).
Proof.
  revert n. induction fuel as [|fuel IH]; intros n Hn.
  - cbn [hex_str]. destruct (n <? 16) eqn:E.
    + apply Z.ltb_lt in E. apply hex_digit_not_hash16. lia.
    + cbn. apply hex_digit_not_hash16. apply Z.mod_pos_bound. lia.
  - change (hex_str (S (S fuel)) n)
      with (if n <? 16 then String (hex_digit n) ""
            else hex_str (S fuel) (n / 16) ++ String (hex_digit (n mod 16)) "").
    destruct (n <? 16) eqn:E.
    + apply Z.ltb_lt in E. apply hex_digit_not_hash16. lia.
    + apply first_not_hash_app, IH. apply Z.div_pos; lia.
Qed.

Lemma hex_str_length_1 (fuel : nat) (n : Z) :
  (1 <= String.length (hex_str (S fuel) n))%nat.
Proof.
  cbn [hex_str]. destruct (n <? 16); [cbn; lia|].
  rewrite length_append. cbn. lia.
Qed.

Lemma hex_str_length_2 (fuel : nat) (n : Z) :
  16 <= n -> (2 <= String.length (hex_str (S (S fuel)) n))%nat.
Proof.
  intros Hn.
  change (hex_str (S (S fuel)) n)
    with (if n <? 16 then String (hex_digit n) ""
          else hex_str (S fuel) (n / 16) ++ String (hex_digit (n mod 16)) "").
  destruct (n <? 16) eqn:E; [apply Z.ltb_lt in E; lia|].
  rewrite length_append. pose proof (hex_str_length_1 fuel (n / 16)).
  cbn [String.length]. lia.
Qed.

Lemma hex_str_length_3 (fuel : nat) (n : Z) :
  256 <= n -> (3 <= String.length (hex_str (S (S (S fuel))) n))%nat.
Proof.
  intros Hn.
  change (hex_str (S (S (S fuel))) n)
    with (if n <? 16 then String (hex_digit n) ""
          else hex_str (S (S fuel)) (n / 16) ++ String (hex_digit (n mod 16)) "").
  destruct (n <? 16) eqn:E; [apply Z.ltb_lt in E; lia|].
  rewrite length_append.
  assert (16 <= n / 16) by (apply Z.div_le_lower_bound; lia).
  pose proof (hex_str_length_2 fuel (n / 16) ltac:(assumption)).
  cbn [String.length]. lia.
Qed.

Lemma format_x_fuel (n : Z) (k : nat) :
  2 ^ Z.of_nat k <= n -> exists fuel, S (Z.to_nat (Z.log2 n)) = (S k + fuel)%nat.
Proof.
  intros Hn. assert (Z.of_nat k <= Z.log2 n) by (apply Z.log2_le_pow2; lia).
  exists (Z.to_nat (Z.log2 n) - k)%nat. lia.
Qed.

Lemma format_x_length (n : Z) :
  (16 <= n -> (2 <= String.length (format_x n))%nat) /\
  (256 <= n -> (3 <= String.length (format_x n))%nat).
Proof.
  unfold format_x. split; intros Hn.
  - destruct (format_x_fuel n 4 ltac:(simpl; lia)) as [fuel ->].
    apply (hex_str_length_2 (3 + fuel)). lia.
  - destruct (format_x_fuel n 8 ltac:(simpl; lia)) as [fuel ->].
    apply (hex_str_length_3 (6 + fuel)). lia.
Qed.

Lemma format_x_first (n : Z) : 0 <= n -> first_not_hash (format_x n).
Proof. intros Hn. unfold format_x. now apply hex_str_first. Qed.

(** Every channel is written on at least two characters, on three or more
    outside [-15, 255], and never starts with ["#"]. *)
Lemma format_02x_shape (c : Z) :
  first_not_hash (format_02x c) /\
  (2 <= String.length (format_02x c))%nat /\
  (c < -15 \/ 255 < c -> (3 <= String.length (format_02x c))%nat).
Proof.
  unfold format_02x, format_x. destruct (c <? 0) eqn:E.
  - apply Z.ltb_lt in E. split; [reflexivity|].
    unfold zfill. cbn [String.length]. rewrite length_append.
    pose proof (hex_str_length_1 (Z.to_nat (Z.log2 (- c))) (- c)). split; [lia|].
    intros [C|C]; [|lia].
    pose proof (proj1 (format_x_length (- c)) ltac:(lia)) as L.
    unfold format_x in L. lia.
  - apply Z.ltb_ge in E. fold (format_x c). unfold zfill.
    pose proof (format_x_first c E) as F.
    pose proof (hex_str_length_1 (Z.to_nat (Z.log2 c)) c) as L1.
    fold (format_x c) in L1.
    destruct (String.length (format_x c)) as [|[|len]] eqn:EL; [lia| |].
    + cbn [Nat.sub zeros]. split; [reflexivity|]. rewrite length_append, EL.
      split; [cbn; lia|]. intros [C|C]; [lia|].
      pose proof (proj2 (format_x_length c) ltac:(lia)). lia.
    + replace (2 - S (S len))%nat with 0%nat by lia. cbn [zeros append].
      split; [exact F|]. rewrite EL. split; [lia|]. intros [C|C]; [lia|].
      pose proof (proj2 (format_x_length c) ltac:(lia)). lia.
Qed.

Lemma lstrip_first_not_hash (s : string) : first_not_hash s -> lstrip "#" s = s.
Proof. destruct s as [|a s]; [contradiction|]. cbn. now intros ->. Qed.

Lemma hex_to_rgb_rgb_to_hex_body (r g b : Z) :
  lstrip "#" (rgb_to_hex (r, g, b)) = format_02x r ++ format_02x g ++ format_02x b.
Proof.
  unfold rgb_to_hex. change ("#" ++ ?s) with (String "#" s).
  cbn [lstrip]. rewrite Ascii.eqb_refl.
  apply lstrip_first_not_hash, first_not_hash_app, format_02x_shape.
Qed.

Lemma hex_to_rgb_rgb_to_hex (r g b : Z) :
  -15 <= r <= 255 -> -15 <= g <= 255 -> -15 <= b <= 255 ->
  hex_to_rgb (rgb_to_hex (r, g, b)) = Ok (r, g, b) /\
  String.length (rgb_to_hex (r, g, b)) = 7%nat.
Proof.
  intros Hr Hg Hb.
  destruct (format_02x_two_chars r Hr) as (a1 & a2 & Ea & _ & Pa).
  destruct (format_02x_two_chars g Hg) as (b1 & b2 & Eb & _ & Pb).
  destruct (format_02x_two_chars b Hb) as (c1 & c2 & Ec & _ & Pc).
  split.
  - unfold hex_to_rgb. rewrite hex_to_rgb_rgb_to_hex_body, Ea, Eb, Ec.
    cbn [append String.length Nat.eqb negb substring].
    rewrite Pa. cbn [bind]. rewrite Pb. cbn [bind]. rewrite Pc. reflexivity.
  - unfold rgb_to_hex. rewrite Ea, Eb, Ec. reflexivity.
Qed.

(** X1.  [hex_to_rgb] reads [rgb_to_hex c] back as [c] exactly when every
    channel of [c] lies in [-15, 255] (a negative channel down to -15 is
    written as a sign and one digit, which [int(_, 16)] reads); for any
    other colour it raises [ValueError]. *)
Theorem hex_round_trip_domain (r g b : Z) :
  (-15 <= r <= 255 /\ -15 <= g <= 255 /\ -15 <= b <= 255 ->
     hex_to_rgb (rgb_to_hex (r, g, b)) = Ok (r, g, b)) /\
  (~ (-15 <= r <= 255 /\ -15 <= g <= 255 /\ -15 <= b <= 255) ->
     hex_to_rgb (rgb_to_hex (r, g, b)) = Raise ValueError).
Proof.
  split.
  - intros (Hr & Hg & Hb). now apply hex_to_rgb_rgb_to_hex.
  - intros H. unfold hex_to_rgb. rewrite hex_to_rgb_rgb_to_hex_body.
    destruct (format_02x_shape r) as (_ & Lr & Lr').
    destruct (format_02x_shape g) as (_ & Lg & Lg').
    destruct (format_02x_shape b) as (_ & Lb & Lb').
    assert (L : (7 <= String.length (format_02x r ++ format_02x g ++ format_02x b))%nat).
    { rewrite !length_append.
      assert (C : (r < -15 \/ 255 < r) \/ (g < -15 \/ 255 < g) \/ (b < -15 \/ 255 < b))
        by lia.
      destruct C as [C|[C|C]];
        [specialize (Lr' C) | specialize (Lg' C) | specialize (Lb' C)]; lia. }
    destruct (String.length (format_02x r ++ format_02x g ++ format_02x b) =? 6)%nat eqn:E;
      [apply Nat.eqb_eq in E; lia | reflexivity].
Qed.

Lemma hex_round_trip_domain_witness :
  hex_to_rgb (rgb_to_hex (-15, 0, 255)) = Ok (-15, 0, 255) /\
  hex_to_rgb (rgb_to_hex (256, 0, 0)) = Raise ValueError.
Proof.
  split.
  - apply (proj1 (hex_round_trip_domain (-15) 0 255)). lia.
  - apply (proj2 (hex_round_trip_domain 256 0 0)). lia.
Defined.

(** X2.  On colours with channels in [0,255], [rgb_to_hex] returns seven
    characters and is injective: two colours with the same code are the
    same colour. *)
Theorem rgb_to_hex_injective (c d : color) :
  valid_pixel c -> valid_pixel d ->
  String.length (rgb_to_hex c) = 7%nat /\
  (rgb_to_hex c = rgb_to_hex d -> c = d).
Proof.
  destruct c as [[r g] b], d as [[r' g'] b']. intros (Hr & Hg & Hb) (Hr' & Hg' & Hb').
  destruct (hex_to_rgb_rgb_to_hex r g b) as [E L]; try lia.
  destruct (hex_to_rgb_rgb_to_hex r' g' b') as [E' _]; try lia.
  split; [exact L|]. intros H. rewrite H in E. congruence.
Qed.

Lemma rgb_to_hex_injective_witness :
  String.length (rgb_to_hex (1, 2, 3)) = 7%nat /\
  (rgb_to_hex (1, 2, 3) = rgb_to_hex (3, 2, 1) -> (1, 2, 3) = (3, 2, 1)).
Proof.
  apply (rgb_to_hex_injective (1, 2, 3) (3, 2, 1)); cbn; lia.
Defined.

End HexDomain.

(** ** What [hex_to_rgb] returns *)

Section HexResults.
Local Open Scope string_scope.
Local Open Scope Z_scope.

Lemma pair_lower_check_all :
  forallb (fun a => forallb (pair_lower_check a) all_ascii) all_ascii = true.
Proof. vm_compute. reflexivity. Qed.

Lemma pair_range_check_all :
  forallb (fun a => forallb (pair_range_check a) all_ascii) all_ascii = true.
Proof. vm_compute. reflexivity. Qed.

Lemma format_02x_hex_pair (a b : ascii) :
  is_hex_digit a = true -> is_hex_digit b = true ->
  format_02x (16 * hexval a + hexval b) =
    String (lower_ascii a) (String (lower_ascii b) "").
Proof.
  intros Ha Hb.
  pose proof (all_ascii_forallb _ pair_lower_check_all a) as H. cbv beta in H.
  pose proof (all_ascii_forallb _ H b) as H'. unfold pair_lower_check in H'.
  rewrite Ha, Hb in H'. now apply String.eqb_eq in H'.
Qed.

Lemma py_int16_pair_range (a b : ascii) (v : Z) :
  py_int16 (String a (String b "")) = Ok v -> -15 <= v <= 255.
Proof.
  intros E.
  pose proof (all_ascii_forallb _ pair_range_check_all a) as H. cbv beta in H.
  pose proof (all_ascii_forallb _ H b) as H'. unfold pair_range_check in H'.
  rewrite E in H'. apply andb_prop in H'. destruct H' as [H1 H2].
  apply Z.leb_le in H1, H2. lia.
Qed.

(** X3.  In the other direction the round trip normalises: when what
    follows the leading ["#"]s is six hexadecimal digits, of either case,
    [rgb_to_hex] of the decoded colour is ["#"] and the same six digits in
    lower case. *)
Theorem rgb_to_hex_hex_to_rgb (s : string) (c0 c1 c2 c3 c4 c5 : ascii) :
  lstrip "#" s =
    String c0 (String c1 (String c2 (String c3 (String c4 (String c5 ""))))) ->
  forallb is_hex_digit [c0; c1; c2; c3; c4; c5] = true ->
  exists c,
    hex_to_rgb s = Ok c /\
    rgb_to_hex c =
      String "#"
        (String (lower_ascii c0) (String (lower_ascii c1)
        (String (lower_ascii c2) (String (lower_ascii c3)
        (String (lower_ascii c4) (String (lower_ascii c5) "")))))).
Proof.
  intros Hv Hhex. cbn [forallb] in Hhex.
  repeat (apply andb_prop in Hhex; let H := fresh "H" in destruct Hhex as [H Hhex]).
  eexists. split.
  - unfold hex_to_rgb. rewrite Hv. cbn [String.length Nat.eqb negb substring].
    rewrite !py_int16_hex_pair by assumption. reflexivity.
  - unfold rgb_to_hex. rewrite !format_02x_hex_pair by assumption. reflexivity.
Qed.

Lemma rgb_to_hex_hex_to_rgb_witness :
  exists c, hex_to_rgb "##FF00aB" = Ok c /\ rgb_to_hex c = "#ff00ab".
Proof.
  apply (rgb_to_hex_hex_to_rgb "##FF00aB" "F" "F" "0" "0" "a" "B")%char; reflexivity.
Defined.

(** X4.  Whatever string [hex_to_rgb] accepts, after the leading ["#"]s it
    has six characters, and every channel returned lies in [-15, 255]: not
    in [0,255], since a group may be a minus sign and one digit. *)
Theorem hex_to_rgb_result_range (s : string) (r g b : Z) :
  hex_to_rgb s = Ok (r, g, b) ->
  String.length (lstrip "#" s) = 6%nat /\
  -15 <= r <= 255 /\ -15 <= g <= 255 /\ -15 <= b <= 255.
Proof.
  unfold hex_to_rgb.
  destruct (String.length (lstrip "#" s) =? 6)%nat eqn:E; [|discriminate].
  apply Nat.eqb_eq in E. cbn [negb].
  destruct (lstrip_length_6 _ E) as (c0 & c1 & c2 & c3 & c4 & c5 & Hv).
  rewrite Hv. cbn [substring].
  destruct (py_int16 (String c0 (String c1 ""))) as [v0|e0] eqn:E0; [|discriminate].
  destruct (py_int16 (String c2 (String c3 ""))) as [v1|e1] eqn:E1; [|discriminate].
  destruct (py_int16 (String c4 (String c5 ""))) as [v2|e2] eqn:E2; [|discriminate].
  cbn [bind]. intros H. injection H as <- <- <-.
  split; [reflexivity|].
  pose proof (py_int16_pair_range _ _ _ E0).
  pose proof (py_int16_pair_range _ _ _ E1).
  pose proof (py_int16_pair_range _ _ _ E2). tauto.
Qed.

Lemma hex_to_rgb_result_range_witness :
  String.length (lstrip "#" "#-f00ff") = 6%nat /\
  -15 <= -15 <= 255 /\ -15 <= 0 <= 255 /\ -15 <= 255 <= 255.
Proof.
  apply (hex_to_rgb_result_range "#-f00ff" (-15) 0 255). reflexivity.
Defined.

End HexResults.

(** ** [generate_palette_image] *)

Section PaletteImage.
Variable textsize : string -> Z * Z.
Local Open Scope Z_scope.

Lemma swatches_of_app (l l' : list draw_call) :
  swatches_of (l ++ l') = swatches_of l ++ swatches_of l'.
Proof. apply flat_map_app. Qed.

Lemma labels_of_app (l l' : list draw_call) :
  labels_of (l ++ l') = labels_of l ++ labels_of l'.
Proof. apply flat_map_app. Qed.

Lemma swatches_of_draw_swatch (sw sh border : Z) (show_labels : bool) (i : Z) (c : color) :
  swatches_of (draw_swatch textsize sw sh border show_labels i c) =
    [(border + i * (sw + border), border,
      border + i * (sw + border) + sw, border + sh, c)].
Proof.
  unfold draw_swatch. cbv zeta. destruct show_labels; [|reflexivity].
  destruct (textsize (rgb_to_hex c)) as [tw th]. reflexivity.
Qed.

Lemma swatches_of_draw_swatches (sw sh border : Z) (show_labels : bool)
    (palette : list color) (i : Z) (j : nat) (c : color) :
  nth_error palette j = Some c ->
  nth_error (swatches_of (draw_swatches textsize sw sh border show_labels i palette)) j =
    Some (border + (i + Z.of_nat j) * (sw + border), border,
          border + (i + Z.of_nat j) * (sw + border) + sw, border + sh, c).
Proof.
  revert i j. induction palette as [|c0 palette IH]; intros i j H.
  - destruct j; discriminate H.
  - cbn [draw_swatches]. rewrite swatches_of_app, swatches_of_draw_swatch.
    destruct j as [|j]; cbn [nth_error app] in *.
    + injection H as ->. now rewrite Z.add_0_r.
    + rewrite (IH (i + 1) j H).
      replace (i + Z.of_nat (S j)) with (i + 1 + Z.of_nat j) by lia. reflexivity.
Qed.






Lemma label_boxes_of_app (l l' : list draw_call) :
  label_boxes_of (l ++ l') = label_boxes_of l ++ label_boxes_of l'.
Proof. apply flat_map_app. Qed.

Lemma labels_of_draw_swatch (sw sh border : Z) (i : Z) (c : color) :
  let x0 := border + i * (sw + border) in
  let size := textsize (rgb_to_hex c) in
  let tx := (inject_Z x0 + inject_Z (sw - fst size) / 2)%Q in
  let ty := (inject_Z border + inject_Z (sh - snd size) / 2)%Q in
  labels_of (draw_swatch textsize sw sh border true i c)
    = [(tx, ty, rgb_to_hex c)] /\
  label_boxes_of (draw_swatch textsize sw sh border true i c)
    = [(tx - 2, ty - 2, tx + inject_Z (fst size) + 2,
        ty + inject_Z (snd size) + 2)%Q].
Proof.
  unfold draw_swatch. cbv zeta.
  destruct (textsize (rgb_to_hex c)) as [tw th]. split; reflexivity.
Qed.

Lemma labels_of_draw_swatches (sw sh border : Z) (palette : list color)
    (i : Z) (j : nat) (c : color) :
  nth_error palette j = Some c ->
  let x0 := border + (i + Z.of_nat j) * (sw + border) in
  let size := textsize (rgb_to_hex c) in
  let tx := (inject_Z x0 + inject_Z (sw - fst size) / 2)%Q in
  let ty := (inject_Z border + inject_Z (sh - snd size) / 2)%Q in
  nth_error (labels_of (draw_swatches textsize sw sh border true i palette)) j
    = Some (tx, ty, rgb_to_hex c) /\
  nth_error (label_boxes_of (draw_swatches textsize sw sh border true i palette)) j
    = Some (tx - 2, ty - 2, tx + inject_Z (fst size) + 2,
            ty + inject_Z (snd size) + 2)%Q.
Proof.
  revert i j. induction palette as [|c0 palette IH]; intros i j H.
  - destruct j; discriminate H.
  - cbn [draw_swatches]. rewrite labels_of_app, label_boxes_of_app.
    destruct (labels_of_draw_swatch sw sh border i c0) as [A B].
    cbv zeta in A, B. rewrite A, B. clear A B.
    destruct j as [|j]; cbn [nth_error app] in *.
    + injection H as <-. rewrite Z.add_0_r. split; reflexivity.
    + destruct (IH (i + 1) j H) as [A B]. cbv zeta in A, B. rewrite A, B.
      replace (i + Z.of_nat (S j)) with (i + 1 + Z.of_nat j) by lia.
      split; reflexivity.
Qed.

Lemma labels_of_unlabelled (sw sh border : Z) (palette : list color) (i : Z) :
  labels_of (draw_swatches textsize sw sh border false i palette) = [] /\
  label_boxes_of (draw_swatches textsize sw sh border false i palette) = [] /\
  List.length (draw_swatches textsize sw sh border false i palette)
    = List.length palette.
Proof.
  revert i. induction palette as [|c palette IH]; intros i.
  - repeat split.
  - destruct (IH (i + 1)) as (A & B & C). cbn [draw_swatches].
    rewrite labels_of_app, label_boxes_of_app, A, B.
    unfold draw_swatch. cbn. now rewrite C.
Qed.

(** X7.  With [show_labels], the swatch of every colour gets one label: its
    text is the colour's hex code, it is centred in the swatch in both
    directions, and its background is the text box grown by 2 on every
    side; the text starts inside the swatch exactly when it is not wider
    than the swatch.  Without [show_labels] only the swatches are drawn. *)
Theorem generate_palette_image_labels (palette : list color)
    (width height border : Z) (show_labels : bool) (calls : list draw_call) :
  generate_palette_image textsize palette width height border show_labels
    = Ok calls ->
  (show_labels = true ->
    forall j c, nth_error palette j = Some c ->
      exists x0 y0 x1 y1 tx ty,
        let text_width := inject_Z (fst (textsize (rgb_to_hex c))) in
        let text_height := inject_Z (snd (textsize (rgb_to_hex c))) in
        nth_error (swatches_of calls) j = Some (x0, y0, x1, y1, c) /\
        nth_error (labels_of calls) j = Some (tx, ty, rgb_to_hex c) /\
        nth_error (label_boxes_of calls) j
          = Some (tx - 2, ty - 2, tx + text_width + 2, ty + text_height + 2)%Q /\
        (tx - inject_Z x0 == inject_Z x1 - (tx + text_width))%Q /\
        (ty - inject_Z y0 == inject_Z y1 - (ty + text_height))%Q /\
        ((inject_Z x0 <= tx)%Q <-> (text_width <= inject_Z (x1 - x0))%Q)) /\
  (show_labels = false ->
    labels_of calls = [] /\ label_boxes_of calls = [] /\
    List.length calls = List.length palette).
Proof.
  unfold generate_palette_image, floordiv.
  set (n := Z.of_nat (List.length palette)).
  destruct (n =? 0); [discriminate|]. cbn [bind]. intros [= <-].
  set (sw := (width - (n + 1) * border) / n).
  set (sh := height - 2 * border).
  split; intros ->; [|apply labels_of_unlabelled].
  intros j c H.
  destruct (labels_of_draw_swatches sw sh border palette 0 j c H) as [A B].
  cbv zeta in A, B.
  pose proof (swatches_of_draw_swatches sw sh border true palette 0 j c H) as C.
  rewrite Z.add_0_l in A, B, C.
  set (x0 := border + Z.of_nat j * (sw + border)) in *.
  destruct (textsize (rgb_to_hex c)) as [tw th]. cbn [fst snd] in *.
  exists x0, border, (x0 + sw), (border + sh),
    (inject_Z x0 + inject_Z (sw - tw) / 2)%Q,
    (inject_Z border + inject_Z (sh - th) / 2)%Q.
  cbv zeta. split; [exact C|]. split; [exact A|]. split; [exact B|].
  replace (x0 + sw - x0) with sw by ring.
  unfold Z.sub. rewrite !inject_Z_plus, !inject_Z_opp.
  split; [field|]. split; [field|].
  split; intros G.
  - apply Qmult_le_r with (z := 1 # 2); [reflexivity|].
    setoid_replace (inject_Z tw * (1 # 2))%Q
      with (inject_Z sw * (1 # 2) - (inject_Z sw + - inject_Z tw) / 2)%Q by field.
    lra.
  - assert (0 <= (inject_Z sw + - inject_Z tw) / 2)%Q; [|lra].
    setoid_replace ((inject_Z sw + - inject_Z tw) / 2)%Q
      with ((inject_Z sw + - inject_Z tw) * (1 # 2))%Q by field.
    apply Qmult_le_0_compat; [lra | discriminate].
Qed.

End PaletteImage.

Section PaletteImageExamples.
Local Open Scope Z_scope.


Lemma generate_palette_image_labels_witness :
  let palette := [(255, 0, 0); (0, 0, 255)] in
  let calls := draw_swatches textsize_6x11 298 96 1 true 0 palette in
  (true = true ->
    forall j c, nth_error palette j = Some c ->
      exists x0 y0 x1 y1 tx ty,
        let text_width := inject_Z (fst (textsize_6x11 (rgb_to_hex c))) in
        let text_height := inject_Z (snd (textsize_6x11 (rgb_to_hex c))) in
        nth_error (swatches_of calls) j = Some (x0, y0, x1, y1, c) /\
        nth_error (labels_of calls) j = Some (tx, ty, rgb_to_hex c) /\
        nth_error (label_boxes_of calls) j
          = Some (tx - 2, ty - 2, tx + text_width + 2, ty + text_height + 2)%Q /\
        (tx - inject_Z x0 == inject_Z x1 - (tx + text_width))%Q /\
        (ty - inject_Z y0 == inject_Z y1 - (ty + text_height))%Q /\
        ((inject_Z x0 <= tx)%Q <-> (text_width <= inject_Z (x1 - x0))%Q)) /\
  (true = false ->
    labels_of calls = [] /\ label_boxes_of calls = [] /\
    List.length calls = List.length palette).
Proof.
  exact (generate_palette_image_labels textsize_6x11 [(255, 0, 0); (0, 0, 255)]
           599 98 1 true _ eq_refl).
Defined.

End PaletteImageExamples.

(** ** The complement in closed form, and its hue *)

Section ComplementMirror.
Import colorsys.
Local Open Scope Q_scope.






End ComplementMirror.

Section ComplementClosedForm.
Import colorsys.
Local Open Scope Z_scope.










End ComplementClosedForm.

(** ** The palette and its uses in [cli.py] and [webapp.py] *)

Section PaletteUse.
Context {rng : Type}.
Variable fit : Z -> option Z -> list color -> rng -> result (list centroid) * rng.
Variable textsize : string -> Z * Z.
Local Open Scope Z_scope.

Lemma extract_palette_valid :
  engine_clusters fit ->
  forall (pixels : list color) (k : Z) (g : rng),
    1 <= k -> k <= Z.of_nat (List.length pixels) -> Forall valid_pixel pixels ->
    exists palette,
      fst (extract_palette fit pixels k g) = Ok palette /\
      Z.of_nat (List.length palette) = k /\
      Forall valid_pixel (map rgb palette).
Proof.
  intros Hfit pixels k g Hk1 Hk2 Hpx.
  destruct (Hfit k (Some 0) pixels g (conj Hk1 Hk2) Hpx) as (centers & Hc & Hlen & Hin).
  destruct (fit k (Some 0) pixels g) as [fitted g'] eqn:E. cbn [fst] in Hc. subst fitted.
  rewrite (extract_palette_unfold _ _ _ _ _ _ E). cbn [fst].
  eexists. split; [reflexivity|]. split.
  - now rewrite length_map, sorted_length, length_map.
  - rewrite map_map. cbn [rgb]. rewrite map_id. apply sorted_Forall.
    apply centers_astype_int_valid, Hin.
Qed.


(** X12.  With an engine that meets its contract, the hex code of every
    palette entry has seven characters and [hex_to_rgb] reads it back as
    the entry's colour; entries with the same hex code have the same
    colour. *)
Theorem palette_to_hex_round_trip :
  engine_clusters fit ->
  forall (pixels : list color) (k : Z) (g : rng),
    1 <= k -> k <= Z.of_nat (List.length pixels) -> Forall valid_pixel pixels ->
    exists palette,
      fst (extract_palette fit pixels k g) = Ok palette /\
      Forall (fun pc => String.length (to_hex pc) = 7%nat /\
                        hex_to_rgb (to_hex pc) = Ok (rgb pc)) palette /\
      (forall p q, In p palette -> In q palette -> to_hex p = to_hex q -> p = q).
Proof.
  intros Hfit pixels k g Hk1 Hk2 Hpx.
  destruct (extract_palette_valid Hfit pixels k g Hk1 Hk2 Hpx) as (palette & E & _ & V).
  exists palette. split; [exact E|].
  rewrite Forall_map in V.
  assert (R : Forall (fun pc => String.length (to_hex pc) = 7%nat /\
                                hex_to_rgb (to_hex pc) = Ok (rgb pc)) palette).
  { eapply Forall_impl; [|exact V]. intros [[[r g0] b]] (Hr & Hg & Hb).
    unfold to_hex. cbn [rgb].
    destruct (hex_to_rgb_rgb_to_hex r g0 b) as [A B]; try lia. now split. }
  split; [exact R|].
  intros p q Hp Hq H. rewrite Forall_forall in R.
  destruct (R p Hp) as [_ A]. destruct (R q Hq) as [_ B].
  rewrite H, B in A. injection A as A. destruct p as [cp], q as [cq]. cbn [rgb] in A. now subst.
Qed.





End PaletteUse.

Section PaletteUseRuns.
Local Open Scope Z_scope.

Lemma four_pixels_valid : Forall valid_pixel four_pixels.
Proof. unfold four_pixels, valid_pixel. repeat constructor; lia. Qed.

Lemma four_pixels_length : 4 <= Z.of_nat (List.length four_pixels).
Proof. simpl. lia. Qed.

Lemma palette_to_hex_round_trip_witness :
  exists palette,
    fst (extract_palette chunk_fit four_pixels 4 0%nat) = Ok palette /\
    Forall (fun pc => String.length (to_hex pc) = 7%nat /\
                      hex_to_rgb (to_hex pc) = Ok (rgb pc)) palette /\
    (forall p q, In p palette -> In q palette -> to_hex p = to_hex q -> p = q).
Proof.
  apply (palette_to_hex_round_trip chunk_fit chunk_fit_clusters four_pixels 4 0%nat
           ltac:(lia) four_pixels_length four_pixels_valid).
Defined.



End PaletteUseRuns.

(** ** The size computed before clustering *)

Section ResizeProperties.
Local Open Scope Z_scope.

Lemma Prim2SF_499 : Prim2SF 499%float = S754_finite false 8778500836163584 (-44).
Proof. vm_compute. reflexivity. Qed.

Lemma Prim2SF_500_5 : Prim2SF 500.5%float = S754_finite false 8804889115230208 (-44).
Proof. vm_compute. reflexivity. Qed.

(** [int] on a binary64 number of [[0, 500.5]]; from 499 on it gives 499 or
    500. *)
Lemma py_int_side (p : float) :
  side_ok p = true ->
  exists z, py_int p = Ok z /\ 0 <= z <= 500 /\ (largest_ok p = true -> 499 <= z).
Proof.
  unfold side_ok. intros H.
  apply andb_prop in H. destruct H as [H0 H1].
  assert (L : largest_ok p = true -> SFle (Prim2SF 499%float) (Prim2SF p)).
  { unfold largest_ok. intros H. apply andb_prop in H. destruct H as [H _].
    now rewrite FloatAxioms.leb_spec, SFleb_SFle in H. }
  rewrite Prim2SF_499 in L.
  rewrite FloatAxioms.leb_spec, SFleb_SFle, Prim2SF_0 in H0.
  rewrite FloatAxioms.leb_spec, SFleb_SFle, Prim2SF_500_5 in H1.
  pose proof (Prim2SF_valid p) as Hv. unfold py_int.
  destruct (Prim2SF p) as [s|s| |s m e]; cbn [SFle] in *.
  - exists 0. split; [reflexivity|]. split; [lia|].
    intros H. specialize (L H). discriminate L.
  - subst s. discriminate H1.
  - contradiction.
  - subst s. apply valid_binary_mantissa in Hv.
    assert (He : exists q, e = Zneg q /\ 44 <= Zpos q).
    { destruct H1 as [He|[He _]]; destruct e as [|q|q]; try lia; exists q; split;
        try reflexivity; lia. }
    destruct He as (q & -> & Hq).
    assert (Hsh : Z.shiftl (Zpos m) (Zneg q) = Zpos m / 2 ^ Zpos q).
    { change (Zneg q) with (- Zpos q). rewrite Z.shiftl_opp_r.
      apply Z.shiftr_div_pow2. lia. }
    assert (Hpos : 0 < 2 ^ Zpos q) by (apply Z.pow_pos_nonneg; lia).
    exists (Zpos m / 2 ^ Zpos q). cbv zeta. rewrite Hsh.
    split; [reflexivity|]. split; [split|].
    + apply Z.div_pos; lia.
    + destruct H1 as [He|[He Hm]].
      * assert (2 ^ 45 <= 2 ^ Zpos q) by (apply Z.pow_le_mono_r; lia).
        change (2 ^ 53) with (256 * 2 ^ 45) in Hv.
        apply Z.lt_succ_r, Z.div_lt_upper_bound; lia.
      * injection He as ->. change (2 ^ 44) with 17592186044416.
        apply Z.lt_succ_r, Z.div_lt_upper_bound; lia.
    + intros H. destruct (L H) as [He|[He Hm]]; [lia|]. injection He as <-.
      change (2 ^ 44) with 17592186044416.
      apply Z.div_le_lower_bound; lia.
Qed.

Lemma rows_ok_spec (n : nat) :
  forall (a : nat) (seen : list float),
    rows_ok seen (map Z.of_nat (seq a n)) = true ->
    forall m : nat, (a <= m < a + n)%nat -> 500 < Z.of_nat m ->
      let scale := (float_of_Z 500 / float_of_Z (Z.of_nat m))%float in
      largest_ok (float_of_Z (Z.of_nat m) * scale)%float = true /\
      (forall x, In x seen -> side_ok (x * scale)%float = true) /\
      (forall d : nat, (a <= d <= m)%nat ->
         side_ok (float_of_Z (Z.of_nat d) * scale)%float = true).
Proof.
  induction n as [|n IH]; intros a seen H m Hm H500; [lia|].
  cbn [seq map rows_ok] in H. cbv zeta in H.
  apply andb_prop in H. destruct H as [Hrow Hrest].
  destruct (Nat.eq_dec m a) as [->|Hne].
  - unfold row_ok in Hrow.
    destruct (Z.of_nat a <=? 500) eqn:E; [apply Z.leb_le in E; lia|].
    cbv zeta in Hrow. apply andb_prop in Hrow. destruct Hrow as [H1 H2].
    rewrite forallb_forall in H2. cbv zeta. split; [exact H1|]. split.
    + intros x Hx. apply H2. now right.
    + intros d Hd. replace d with a by lia. apply H2. now left.
  - destruct (IH (S a) _ Hrest m ltac:(lia) H500) as (H1 & H2 & H3).
    cbv zeta. split; [exact H1|]. split.
    + intros x Hx. apply H2. now right.
    + intros d Hd. destruct (Nat.eq_dec d a) as [->|Hd'].
      * apply H2. now left.
      * apply H3. lia.
Qed.

Lemma rows_ok_all : rows_ok [] (Zrange (S max_side)) = true.
Proof. vm_compute. reflexivity. Qed.

(** The two products of core.py:107 for a largest side [m] and a side [d]
    of the image. *)
Lemma resized_side (d m : Z) :
  0 <= d <= m -> 500 < m <= Z.of_nat max_side ->
  let scale := (float_of_Z 500 / float_of_Z m)%float in
  largest_ok (float_of_Z m * scale)%float = true /\
  side_ok (float_of_Z d * scale)%float = true.
Proof.
  intros Hd Hm scale.
  destruct (rows_ok_spec _ _ _ rows_ok_all (Z.to_nat m) ltac:(lia) ltac:(lia))
    as (H1 & _ & H3).
  specialize (H3 (Z.to_nat d) ltac:(lia)).
  rewrite !Z2Nat.id in * by lia. split; assumption.
Qed.

Lemma largest_side_ok (p : float) : largest_ok p = true -> side_ok p = true.
Proof.
  unfold largest_ok, side_ok. intros H. apply andb_prop in H. destruct H as [H0 H1].
  rewrite H1, andb_true_r.
  apply (fle_trans 0 499 p); [reflexivity | exact H0].
Qed.

(** X15.  With the default [resize = 500], for every image with sides from
    1 to 4096 whose largest side is over 500: the new size is computed
    without error, its sides are at most 500 and at least 0, and its
    largest side is 499 or 500. *)
Theorem resized_size_default (w h : Z) :
  1 <= w <= 4096 -> 1 <= h <= 4096 -> 500 < Z.max w h ->
  exists w' h',
    resized_size (w, h) (Some 500) = Ok (w', h') /\
    0 <= w' <= 500 /\ 0 <= h' <= 500 /\ 499 <= Z.max w' h'.
Proof.
  intros Hw Hh Hm. unfold resized_size, int_truediv. cbn [fst snd].
  set (m := Z.max w h) in *.
  assert (E1 : (500 <? m) = true) by (apply Z.ltb_lt; lia).
  assert (E2 : (m =? 0) = false) by (apply Z.eqb_neq; lia).
  rewrite E1, E2. cbn [bind].
  assert (Hmax : m <= Z.of_nat max_side) by (unfold m, max_side; lia).
  destruct (resized_side w m ltac:(unfold m; lia) ltac:(lia)) as [Lm Sw].
  destruct (resized_side h m ltac:(unfold m; lia) ltac:(lia)) as [_ Sh].
  cbv zeta in Lm, Sw, Sh.
  destruct (py_int_side _ Sw) as (w' & Ew & Rw & Lw).
  destruct (py_int_side _ Sh) as (h' & Eh & Rh & Lh).
  rewrite Ew. cbn [bind]. rewrite Eh. cbn [bind].
  exists w', h'. split; [reflexivity|]. split; [exact Rw|]. split; [exact Rh|].
  destruct (Z.max_spec w h) as [[_ E]|[_ E]]; fold m in E.
  - rewrite <- E in Lh. specialize (Lh Lm). lia.
  - rewrite <- E in Lw. specialize (Lw Lm). lia.
Qed.

Lemma resized_size_default_witness :
  exists w' h',
    resized_size (531, 300) (Some 500) = Ok (w', h') /\
    0 <= w' <= 500 /\ 0 <= h' <= 500 /\ 499 <= Z.max w' h'.
Proof.
  apply (resized_size_default 531 300); lia.
Defined.

(** The largest side does become 499, and a side does become 0. *)
Example resized_size_one_short :
  resized_size (531, 300) (Some 500) = Ok (499, 282) /\
  resized_size (2000, 1) (Some 500) = Ok (500, 0).
Proof. vm_compute. split; reflexivity. Qed.

End ResizeProperties.
